(** * SearchDropdown: a shallow embedding of
      client/src/components/ui/SearchDropdown.tsx

    The component is a small state machine: four [useState] cells (query,
    loading, results, error), one [useRef] cell holding the handle of the
    debounce timer, the [open] prop, and three effects.  The host (browser
    event loop, React, the HTTP client) is modelled by explicit state: a
    clock, the queue of pending timers, the suspended [async] callbacks that
    wait on [Promise.all], and a log of the calls made to the outside
    ([Axios.get], [onClose], [navigate], [focus]).

    - Time is counted in the units of [setTimeout] (milliseconds); [Tick] is
      one unit passing, and a timer runs at the tick that reaches its due
      time.
    - An event is handled to the end before the next one: the state after
      [step] is the one React has settled in, every effect of the renders
      the event caused having run.
    - Strings are JavaScript strings, sequences of UTF-16 code units, since
      [trim] and [encodeURIComponent] are defined on those; the latter
      throws on an unpaired surrogate, inside the [try] block of the timer
      callback.
    - The two endpoints answer with rows of the documented shape, but any
      field the component reads through [||] or [?.] may be missing.
    - Unmounting and the styling of the view are left out. *)

From Stdlib Require Import List String Ascii NArith Bool Arith Lia.
Import ListNotations.

(** ** JavaScript strings *)

Module JS.

(** A JavaScript string is a sequence of UTF-16 code units. *)
Definition jsstring := list N.

Local Open Scope N_scope.

(** Literals of the source are ASCII; [js] reads one off a Rocq string. *)
Fixpoint js (s : string) : jsstring :=
  match s with
  | EmptyString => []
  | String a r => N_of_ascii a :: js r
  end.

(** The double quote, which a Rocq literal cannot hold undoubled. *)
Definition dquote : jsstring := [34].

(** Truthiness of a string: [s && ...], [!s]. *)
Definition truthy (s : jsstring) : bool :=
  match s with [] => false | _ :: _ => true end.

(** ECMAScript WhiteSpace and LineTerminator code points, the ones
    [String.prototype.trim] strips. *)
Definition is_whitespace (c : N) : bool :=
  (c =? 0x09) || (c =? 0x0A) || (c =? 0x0B) || (c =? 0x0C) || (c =? 0x0D)
  || (c =? 0x20) || (c =? 0xA0) || (c =? 0x1680)
  || ((0x2000 <=? c) && (c <=? 0x200A))
  || (c =? 0x2028) || (c =? 0x2029) || (c =? 0x202F) || (c =? 0x205F)
  || (c =? 0x3000) || (c =? 0xFEFF).

Fixpoint trimStart (s : jsstring) : jsstring :=
  match s with
  | [] => []
  | c :: r => if is_whitespace c then trimStart r else s
  end.

Definition trimEnd (s : jsstring) : jsstring := rev (trimStart (rev s)).

Definition trim (s : jsstring) : jsstring := trimEnd (trimStart s).

(** [encodeURIComponent]: the characters left as they are. *)
Definition unreserved (c : N) : bool :=
  ((0x41 <=? c) && (c <=? 0x5A))          (* A-Z *)
  || ((0x61 <=? c) && (c <=? 0x7A))       (* a-z *)
  || ((0x30 <=? c) && (c <=? 0x39))       (* 0-9 *)
  || (c =? 0x2D) || (c =? 0x5F) || (c =? 0x2E) || (c =? 0x21)   (* - _ . ! *)
  || (c =? 0x7E) || (c =? 0x2A) || (c =? 0x27)                  (* ~ * '   *)
  || (c =? 0x28) || (c =? 0x29).                                (* ( )     *)

Definition hex_digit (n : N) : N :=
  if n <? 10 then 0x30 + n else 0x41 + (n - 10).

Definition percent (byte : N) : jsstring :=
  [0x25; hex_digit (byte / 16); hex_digit (byte mod 16)].

Definition utf8 (cp : N) : list N :=
  if cp <? 0x80 then [cp]
  else if cp <? 0x800 then [0xC0 + cp / 64; 0x80 + cp mod 64]
  else if cp <? 0x10000 then
    [0xE0 + cp / 4096; 0x80 + (cp / 64) mod 64; 0x80 + cp mod 64]
  else
    [0xF0 + cp / 262144; 0x80 + (cp / 4096) mod 64;
     0x80 + (cp / 64) mod 64; 0x80 + cp mod 64].

Definition is_high_surrogate (c : N) : bool := (0xD800 <=? c) && (c <=? 0xDBFF).
Definition is_low_surrogate (c : N) : bool := (0xDC00 <=? c) && (c <=? 0xDFFF).

Definition encode_point (cp : N) : jsstring :=
  if unreserved cp then [cp] else flat_map percent (utf8 cp).

(** [encodeURIComponent s]: [None] is the [URIError] thrown at a code unit
    that is a surrogate without its partner. *)
Fixpoint encodeURIComponent (s : jsstring) : option jsstring :=
  match s with
  | [] => Some []
  | c :: r =>
      if is_low_surrogate c then None
      else if is_high_surrogate c then
        match r with
        | c2 :: r2 =>
            if is_low_surrogate c2 then
              match encodeURIComponent r2 with
              | Some e =>
                  Some (encode_point
                          (0x10000 + (c - 0xD800) * 0x400 + (c2 - 0xDC00)) ++ e)
              | None => None
              end
            else None
        | [] => None
        end
      else
        match encodeURIComponent r with
        | Some e => Some (encode_point c ++ e)
        | None => None
        end
  end.

(** [a === b] on strings. *)
Fixpoint jseqb (a b : jsstring) : bool :=
  match a, b with
  | [], [] => true
  | x :: a', y :: b' => (x =? y) && jseqb a' b'
  | _, _ => false
  end.

End JS.
Import JS.

(** ** Data model *)

(** The rows the two endpoints return; the component reads [_id], [name],
    [slug] and, of a product, [brand]. *)
Record Category := { cat_id : jsstring; cat_name : jsstring; cat_slug : jsstring }.

Record Product :=
  { prod_id : jsstring; prod_name : jsstring; prod_slug : jsstring;
    prod_brand : jsstring }.

(** [useState<{ categories: any[]; products: any[] }>]. *)
Record Results := { categories : list Category; products : list Product }.

Definition no_results : Results := {| categories := []; products := [] |}.

(** What [Axios.get] resolves to.  [data] is the parsed body, [None] when it
    is [null] or [undefined]; inside a body every field the component reads
    may be missing (or falsy), which is [None] again. *)
Record AxiosResponse (B : Type) := { data : option B }.
Arguments data {B} _.

(** Body of the category endpoint: [{ data: Category[] }]. *)
Record CategoryBody := { cb_data : option (list Category) }.

(** Body of the product endpoint: [{ data: { products: Product[] } }]. *)
Record ProductData := { pd_products : option (list Product) }.
Record ProductBody := { pb_data : option ProductData }.

Definition CategoryResponse := AxiosResponse CategoryBody.
Definition ProductResponse := AxiosResponse ProductBody.

(** Calls the component makes to its collaborators, in order. *)
Inductive Call :=
| Get (url : jsstring)         (* Axios.get(url) *)
| OnClose                      (* the onClose prop *)
| Navigate (path : jsstring)   (* navigate(path) *)
| Focus.                       (* inputRef.current.focus() *)

(** A pending [setTimeout]: its handle, the time it is due, and the [query]
    its callback closed over. *)
Record Timer := { timer_id : nat; timer_due : nat; timer_query : jsstring }.

(** An [async] callback suspended at [await Promise.all([..., ...])]: what
    each of the two promises has resolved to so far.  Nothing of the query
    it was started for is kept: the source tags neither request nor
    response. *)
Record Cycle :=
  { cycle_id : nat;
    cat_res : option CategoryResponse;
    prod_res : option ProductResponse }.

Record State :=
  { (* props *)
    open : bool;
    (* useState *)
    query : jsstring;
    loading : bool;
    results : Results;
    error : jsstring;
    (* useRef: debounceTimeout.current, None for null *)
    debounceTimeout : option nat;
    (* whether the last run of the search effect returned its cleanup *)
    has_cleanup : bool;
    (* the host *)
    now : nat;
    next_timer : nat;
    timers : list Timer;
    next_cycle : nat;
    inflight : list Cycle;
    log : list Call }.

(** Record updates.  The [set...] ones are the writes of the state setters;
    the render and the effects a write causes are in [change] and
    [set_open] below. *)
Definition with_open (b : bool) (s : State) : State :=
  {| open := b; query := query s; loading := loading s; results := results s;
     error := error s; debounceTimeout := debounceTimeout s;
     has_cleanup := has_cleanup s; now := now s; next_timer := next_timer s;
     timers := timers s; next_cycle := next_cycle s; inflight := inflight s;
     log := log s |}.

Definition setQuery (q : jsstring) (s : State) : State :=
  {| open := open s; query := q; loading := loading s; results := results s;
     error := error s; debounceTimeout := debounceTimeout s;
     has_cleanup := has_cleanup s; now := now s; next_timer := next_timer s;
     timers := timers s; next_cycle := next_cycle s; inflight := inflight s;
     log := log s |}.

Definition setLoading (b : bool) (s : State) : State :=
  {| open := open s; query := query s; loading := b; results := results s;
     error := error s; debounceTimeout := debounceTimeout s;
     has_cleanup := has_cleanup s; now := now s; next_timer := next_timer s;
     timers := timers s; next_cycle := next_cycle s; inflight := inflight s;
     log := log s |}.

Definition setResults (r : Results) (s : State) : State :=
  {| open := open s; query := query s; loading := loading s; results := r;
     error := error s; debounceTimeout := debounceTimeout s;
     has_cleanup := has_cleanup s; now := now s; next_timer := next_timer s;
     timers := timers s; next_cycle := next_cycle s; inflight := inflight s;
     log := log s |}.

Definition setError (e : jsstring) (s : State) : State :=
  {| open := open s; query := query s; loading := loading s; results := results s;
     error := e; debounceTimeout := debounceTimeout s;
     has_cleanup := has_cleanup s; now := now s; next_timer := next_timer s;
     timers := timers s; next_cycle := next_cycle s; inflight := inflight s;
     log := log s |}.

Definition with_debounceTimeout (h : option nat) (s : State) : State :=
  {| open := open s; query := query s; loading := loading s; results := results s;
     error := error s; debounceTimeout := h;
     has_cleanup := has_cleanup s; now := now s; next_timer := next_timer s;
     timers := timers s; next_cycle := next_cycle s; inflight := inflight s;
     log := log s |}.

Definition with_cleanup (b : bool) (s : State) : State :=
  {| open := open s; query := query s; loading := loading s; results := results s;
     error := error s; debounceTimeout := debounceTimeout s;
     has_cleanup := b; now := now s; next_timer := next_timer s;
     timers := timers s; next_cycle := next_cycle s; inflight := inflight s;
     log := log s |}.

Definition with_now (t : nat) (s : State) : State :=
  {| open := open s; query := query s; loading := loading s; results := results s;
     error := error s; debounceTimeout := debounceTimeout s;
     has_cleanup := has_cleanup s; now := t; next_timer := next_timer s;
     timers := timers s; next_cycle := next_cycle s; inflight := inflight s;
     log := log s |}.

Definition with_timers (next : nat) (l : list Timer) (s : State) : State :=
  {| open := open s; query := query s; loading := loading s; results := results s;
     error := error s; debounceTimeout := debounceTimeout s;
     has_cleanup := has_cleanup s; now := now s; next_timer := next;
     timers := l; next_cycle := next_cycle s; inflight := inflight s;
     log := log s |}.

Definition with_inflight (next : nat) (l : list Cycle) (s : State) : State :=
  {| open := open s; query := query s; loading := loading s; results := results s;
     error := error s; debounceTimeout := debounceTimeout s;
     has_cleanup := has_cleanup s; now := now s; next_timer := next_timer s;
     timers := timers s; next_cycle := next; inflight := l;
     log := log s |}.

Definition call (c : Call) (s : State) : State :=
  {| open := open s; query := query s; loading := loading s; results := results s;
     error := error s; debounceTimeout := debounceTimeout s;
     has_cleanup := has_cleanup s; now := now s; next_timer := next_timer s;
     timers := timers s; next_cycle := next_cycle s; inflight := inflight s;
     log := log s ++ [c] |}.

(** ** The host: timers *)

(** [setTimeout(cb, delay)]: a fresh handle, the callback queued. *)
Definition setTimeout (q : jsstring) (delay : nat) (s : State) : nat * State :=
  let id := next_timer s in
  (id,
   with_timers (S id)
     (timers s ++ [{| timer_id := id; timer_due := now s + delay; timer_query := q |}])
     s).

(** [clearTimeout(id)]: nothing happens for a handle that is not pending. *)
Definition clearTimeout (id : nat) (s : State) : State :=
  with_timers (next_timer s)
    (filter (fun t => negb (timer_id t =? id)) (timers s)) s.

(** ** The component *)

Definition initial (o : bool) : State :=
  {| open := o; query := []; loading := false; results := no_results;
     error := []; debounceTimeout := None; has_cleanup := false;
     now := 0; next_timer := 1; timers := []; next_cycle := 0; inflight := [];
     log := [] |}.

Definition search_failed : jsstring := js "Search failed.".

Definition category_url (q : jsstring) : jsstring :=
  js "/api/category/search?q=" ++ q.

Definition product_url (q : jsstring) : jsstring :=
  js "/api/product/search?q=" ++ q ++ js "&limit=10".

(** [catRes.data.data || []]; [None] is the [TypeError] of reading [.data]
    off a missing body. *)
Definition read_categories (catRes : CategoryResponse) : option (list Category) :=
  match data catRes with
  | None => None
  | Some body => Some (match cb_data body with Some l => l | None => [] end)
  end.

(** [prodRes.data.data?.products || []]. *)
Definition read_products (prodRes : ProductResponse) : option (list Product) :=
  match data prodRes with
  | None => None
  | Some body =>
      Some (match pb_data body with
            | Some d => match pd_products d with Some l => l | None => [] end
            | None => []
            end)
  end.

(** The [catch] and [finally] blocks of the timer callback (lines 65-69). *)
Definition catch_block (s : State) : State := setError search_failed s.

Definition finally_block (s : State) : State := setLoading false s.

(** The timer callback up to its [await] (lines 56-60).  The array literal
    is evaluated left to right: each template literal calls
    [encodeURIComponent], each [Axios.get] sends its request.  A throw goes
    to [catch] and [finally]; otherwise the callback is suspended. *)
Definition fetch_start (q : jsstring) (s : State) : State :=
  match encodeURIComponent q with
  | None => finally_block (catch_block s)
  | Some e1 =>
      let s := call (Get (category_url e1)) s in
      match encodeURIComponent q with
      | None => finally_block (catch_block s)
      | Some e2 =>
          let s := call (Get (product_url e2)) s in
          with_inflight (S (next_cycle s))
            (inflight s ++
               [{| cycle_id := next_cycle s; cat_res := None; prod_res := None |}])
            s
      end
  end.

(** The callback after [Promise.all] fulfilled with both responses
    (lines 61-64, then [finally]). *)
Definition fetch_fulfilled (catRes : CategoryResponse) (prodRes : ProductResponse)
    (s : State) : State :=
  match read_categories catRes with
  | None => finally_block (catch_block s)
  | Some cs =>
      match read_products prodRes with
      | None => finally_block (catch_block s)
      | Some ps => finally_block (setResults {| categories := cs; products := ps |} s)
      end
  end.

(** The callback after [Promise.all] rejected. *)
Definition fetch_rejected (s : State) : State := finally_block (catch_block s).

(** [if (debounceTimeout.current) clearTimeout(debounceTimeout.current)]
    (lines 54 and 73; handles are positive, hence truthy). *)
Definition clear_debounce (s : State) : State :=
  match debounceTimeout s with
  | Some id => clearTimeout id s
  | None => s
  end.

(** The debounced search effect (lines 46-75), run after a render in which
    [query] changed. *)
Definition search_effect (s : State) : State :=
  if negb (truthy (trim (query s))) then
    with_cleanup false (setError [] (setResults no_results s))
  else
    let s := setLoading true s in
    let s := setError [] s in
    let s := clear_debounce s in
    let (id, s) := setTimeout (query s) 350 s in
    with_cleanup true (with_debounceTimeout (Some id) s).

(** The cleanup the previous run of the effect returned, if it returned one. *)
Definition search_cleanup (s : State) : State :=
  if has_cleanup s then clear_debounce s else s.

(** A render with a new [query]: cleanup of the last run, then the effect. *)
Definition query_changed (s : State) : State := search_effect (search_cleanup s).

(** The effect on [open] (lines 34-43); the input exists exactly when the
    overlay is rendered, so [inputRef.current] is set when [open] is. *)
Definition open_effect (s : State) : State :=
  if open s then call Focus s
  else setError [] (setResults no_results (setQuery [] s)).

(** Mounting: every effect runs once, in source order. *)
Definition mount (o : bool) : State := search_effect (open_effect (initial o)).

Inductive Kind := category | product.

(** [handleResultClick] (lines 77-84). *)
Definition handleResultClick (type : Kind) (slug : jsstring) (s : State) : State :=
  let s := call OnClose s in
  match type with
  | category => call (Navigate (js "/category/" ++ slug)) s
  | product => call (Navigate (js "/product/" ++ slug)) s
  end.

(** [handleEscape] (lines 24-28). *)
Definition handleEscape (key : jsstring) (s : State) : State :=
  if jseqb key (js "Escape") then call OnClose s else s.

(** ** The rendered view (lines 86-182) *)

Record Row := { row_key : jsstring; row_text : jsstring; row_click : Kind * jsstring }.

Inductive Group :=
| CategoriesGroup (rows : list Row)
| ProductsGroup (rows : list Row)
| NoResults (text : jsstring).

Inductive Block :=
| Spinner
| ErrorText (msg : jsstring)
| ResultList (groups : list Group).

Record View := { input_value : jsstring; result_area : option (list Block) }.

(** [{c && <x/>}]. *)
Definition when {A : Type} (c : bool) (x : A) : list A := if c then [x] else [].

Definition category_row (cat : Category) : Row :=
  {| row_key := cat_id cat; row_text := cat_name cat;
     row_click := (category, cat_slug cat) |}.

Definition product_row (prod : Product) : Row :=
  {| row_key := prod_id prod;
     row_text := prod_name prod ++ js " (" ++ prod_brand prod ++ js ")";
     row_click := (product, prod_slug prod) |}.

Definition no_results_text (q : jsstring) : jsstring :=
  js "No results found for " ++ dquote ++ q ++ dquote.

Definition result_list (s : State) : list Group :=
  let cats := categories (results s) in
  let prods := products (results s) in
  when (0 <? List.length cats) (CategoriesGroup (map category_row cats))
  ++ when (0 <? List.length prods) (ProductsGroup (map product_row prods))
  ++ when ((List.length cats =? 0) && (List.length prods =? 0) && truthy (query s))
       (NoResults (no_results_text (query s))).

Definition result_blocks (s : State) : list Block :=
  when (loading s) Spinner
  ++ when (negb (loading s) && truthy (error s)) (ErrorText (error s))
  ++ when (negb (loading s) && negb (truthy (error s))) (ResultList (result_list s)).

Definition render (s : State) : option View :=
  if negb (open s) then None
  else Some {| input_value := query s;
               result_area := if truthy (query s) then Some (result_blocks s)
                              else None |}.

Definition rendered_rows (s : State) : list Row :=
  match render s with
  | Some {| result_area := Some blocks |} =>
      flat_map (fun b => match b with
                         | ResultList gs =>
                             flat_map (fun g => match g with
                                                | CategoriesGroup rows => rows
                                                | ProductsGroup rows => rows
                                                | NoResults _ => []
                                                end) gs
                         | _ => []
                         end) blocks
  | _ => []
  end.

(** ** Events and the step function *)

(** How a promise settles. *)
Inductive Outcome (A : Type) :=
| Fulfilled (v : A)
| Rejected.
Arguments Fulfilled {A} v.
Arguments Rejected {A}.

Inductive Event :=
| SetOpen (b : bool)            (* the parent renders with this [open] *)
| Change (value : jsstring)     (* onChange of the input *)
| KeyDown (key : jsstring)      (* keydown on the document *)
| ClickClose                    (* the close button *)
| ClickRow (i : nat)            (* the i-th result row on screen *)
| Tick                          (* one time unit passes *)
| CategoryDone (cycle : nat) (o : Outcome CategoryResponse)
| ProductDone (cycle : nat) (o : Outcome ProductResponse).

Definition find_cycle (id : nat) (s : State) : option Cycle :=
  find (fun c => cycle_id c =? id) (inflight s).

Definition remove_cycle (id : nat) (s : State) : State :=
  with_inflight (next_cycle s)
    (filter (fun c => negb (cycle_id c =? id)) (inflight s)) s.

Definition update_cycle (c : Cycle) (s : State) : State :=
  with_inflight (next_cycle s)
    (map (fun c' => if cycle_id c' =? cycle_id c then c else c') (inflight s)) s.

(** [Promise.all]: rejected by the first rejection, fulfilled once both are;
    a settled promise ignores what comes later. *)
Definition category_done (id : nat) (o : Outcome CategoryResponse) (s : State)
    : State :=
  match find_cycle id s with
  | None => s
  | Some c =>
      match cat_res c, o with
      | Some _, _ => s
      | None, Rejected => fetch_rejected (remove_cycle id s)
      | None, Fulfilled catRes =>
          match prod_res c with
          | Some prodRes => fetch_fulfilled catRes prodRes (remove_cycle id s)
          | None =>
              update_cycle
                {| cycle_id := id; cat_res := Some catRes; prod_res := None |} s
          end
      end
  end.

Definition product_done (id : nat) (o : Outcome ProductResponse) (s : State)
    : State :=
  match find_cycle id s with
  | None => s
  | Some c =>
      match prod_res c, o with
      | Some _, _ => s
      | None, Rejected => fetch_rejected (remove_cycle id s)
      | None, Fulfilled prodRes =>
          match cat_res c with
          | Some catRes => fetch_fulfilled catRes prodRes (remove_cycle id s)
          | None =>
              update_cycle
                {| cycle_id := id; cat_res := None; prod_res := Some prodRes |} s
          end
      end
  end.

Definition is_due (t : nat) (x : Timer) : bool := timer_due x <=? t.

(** One time unit passes; the timers now due leave the queue and their
    callbacks run, oldest first. *)
Definition tick (s : State) : State :=
  let t := S (now s) in
  let due := filter (is_due t) (timers s) in
  let s := with_timers (next_timer s)
             (filter (fun x => negb (is_due t x)) (timers s)) (with_now t s) in
  fold_left (fun s x => fetch_start (timer_query x) s) due s.

(** [setQuery(value)] from the input: React bails out on an equal value. *)
Definition change (value : jsstring) (s : State) : State :=
  if jseqb value (query s) then s else query_changed (setQuery value s).

(** The [open] prop changes: its effect runs, and if that changed [query]
    the next render runs the search effect too. *)
Definition set_open (b : bool) (s : State) : State :=
  if Bool.eqb b (open s) then s
  else
    let s' := open_effect (with_open b s) in
    if jseqb (query s') (query s) then s' else query_changed s'.

(** The input, the buttons and the keydown listener exist only while the
    overlay is open. *)
Definition step (s : State) (e : Event) : State :=
  match e with
  | SetOpen b => set_open b s
  | Change value => if open s then change value s else s
  | KeyDown key => if open s then handleEscape key s else s
  | ClickClose => if open s then call OnClose s else s
  | ClickRow i =>
      match nth_error (rendered_rows s) i with
      | Some r => handleResultClick (fst (row_click r)) (snd (row_click r)) s
      | None => s
      end
  | Tick => tick s
  | CategoryDone id o => category_done id o s
  | ProductDone id o => product_done id o s
  end.

Definition run (s : State) (evs : list Event) : State := fold_left step evs s.

Fixpoint advance (n : nat) (s : State) : State :=
  match n with
  | 0 => s
  | S n' => advance n' (tick s)
  end.

(** Keystrokes: each is a wait and then the new value of the input. *)
Definition keystroke (s : State) (k : nat * jsstring) : State :=
  step (advance (fst k) s) (Change (snd k)).

Definition type_keys (s : State) (ks : list (nat * jsstring)) : State :=
  fold_left keystroke ks s.

Inductive reachable : State -> Prop :=
| reachable_mount (o : bool) : reachable (mount o)
| reachable_step (s : State) (e : Event) : reachable s -> reachable (step s e).

(** The [Get]s of a log. *)
Definition gets (l : list Call) : list jsstring :=
  flat_map (fun c => match c with Get u => [u] | _ => [] end) l.

(** The two lookups of one fetch cycle for an encoded query. *)
Definition lookups (e : jsstring) : list Call :=
  [Get (category_url e); Get (product_url e)].

(** ** Notions the statements use *)

(** The debounce invariant: no timer is pending, or exactly one, and then it
    is the one [debounceTimeout.current] names, it was set for the current
    query by the last run of the search effect, and it is due within the
    next 350 time units. *)
Definition debounce_inv (s : State) : Prop :=
  match timers s with
  | [] => True
  | [t] =>
      debounceTimeout s = Some (timer_id t)
      /\ has_cleanup s = true
      /\ timer_query t = query s
      /\ truthy (trim (query s)) = true
      /\ now s < timer_due t <= now s + 350
  | _ :: _ :: _ => False
  end.

(** The part of the invariant that does not mention the query: the cleanup
    of the search effect will cancel whatever is pending. *)
Definition timer_tracked (s : State) : Prop :=
  match timers s with
  | [] => True
  | [t] => debounceTimeout s = Some (timer_id t) /\ has_cleanup s = true
  | _ :: _ :: _ => False
  end.

(** [s'] differs from [s] in nothing the debounce logic reads. *)
Definition same_timing (s s' : State) : Prop :=
  timers s' = timers s /\ debounceTimeout s' = debounceTimeout s
  /\ has_cleanup s' = has_cleanup s /\ query s' = query s /\ now s' = now s
  /\ open s' = open s /\ next_timer s' = next_timer s.

(** The state right after a keystroke changed the query: the overlay is
    open and the timer, if the query asks for one, has the full delay ahead. *)
Definition just_typed (s : State) : Prop :=
  open s = true /\ timer_tracked s /\
  match timers s with
  | [] => truthy (trim (query s)) = false
  | t :: _ =>
      timer_due t = now s + 350 /\ timer_query t = query s
      /\ truthy (trim (query s)) = true
  end.

(** Every value of a list of typed values differs from the one before. *)
Fixpoint mutations (prev : jsstring) (qs : list jsstring) : bool :=
  match qs with
  | [] => true
  | q :: r => negb (jseqb q prev) && mutations q r
  end.

(** The [ResultSet] of a fetch cycle whose two lookups were fulfilled, when
    both bodies can be read. *)
Definition cycle_result (catRes : CategoryResponse) (prodRes : ProductResponse)
    : option Results :=
  match read_categories catRes, read_products prodRes with
  | Some cs, Some ps => Some {| categories := cs; products := ps |}
  | _, _ => None
  end.

(** [completes s e]: the event [e] is the response that completes a fetch
    cycle in flight in [s], and this is the cycle's result. *)
Definition completes (s : State) (e : Event) : option Results :=
  match e with
  | CategoryDone id (Fulfilled catRes) =>
      match find_cycle id s with
      | Some {| cat_res := None; prod_res := Some prodRes |} =>
          cycle_result catRes prodRes
      | _ => None
      end
  | ProductDone id (Fulfilled prodRes) =>
      match find_cycle id s with
      | Some {| cat_res := Some catRes; prod_res := None |} =>
          cycle_result catRes prodRes
      | _ => None
      end
  | _ => None
  end.

(** The result of the most recently completed fetch cycle along a run that
    starts in [s], [r] being that result before the run. *)
Fixpoint last_completed (s : State) (evs : list Event) (r : Results) : Results :=
  match evs with
  | [] => r
  | e :: evs' =>
      last_completed (step s e) evs'
        (match completes s e with Some r' => r' | None => r end)
  end.

(** The events that are not part of fetching and completing: the two resets,
    by a query that trims to nothing and by closing the overlay. *)
Definition resets (e : Event) : bool :=
  match e with
  | Change q => negb (truthy (trim q))
  | SetOpen b => negb b
  | _ => false
  end.

(** The events that start no debounce timer: all but a keystroke that
    leaves a query with something in it. *)
Definition starts_no_timer (e : Event) : bool :=
  match e with
  | Change q => negb (truthy (trim q))
  | _ => true
  end.

(** [e] is a response to one of the two lookups of cycle [id]. *)
Definition response_for (id : nat) (e : Event) : bool :=
  match e with
  | CategoryDone i _ | ProductDone i _ => i =? id
  | _ => false
  end.

(** Loading is shown, nothing is scheduled and nothing is in flight. *)
Definition idle_loading (s : State) : Prop :=
  loading s = true /\ timers s = [] /\ inflight s = [].

(** The URLs of one fetch cycle. *)
Definition cycle_urls (e : jsstring) : list jsstring :=
  [category_url e; product_url e].

Definition encodable (e : jsstring) : Prop :=
  exists q, encodeURIComponent q = Some e.

(** The requests sent so far are the pairs of the fetch cycles started so
    far, in order. *)
Definition paired (s : State) : Prop :=
  exists es,
    gets (log s) = flat_map cycle_urls es
    /\ List.length es = next_cycle s
    /\ Forall encodable es.

Definition same_requests (s s' : State) : Prop :=
  gets (log s') = gets (log s) /\ next_cycle s' = next_cycle s.

Definition route (type : Kind) : jsstring :=
  match type with
  | category => js "/category/"
  | product => js "/product/"
  end.

(** ** Sample data and runs *)

(** Responses of the shape the endpoints document. *)
Definition ok_categories (l : list Category) : CategoryResponse :=
  {| data := Some {| cb_data := Some l |} |}.

Definition ok_products (l : list Product) : ProductResponse :=
  {| data := Some {| pb_data := Some {| pd_products := Some l |} |} |}.

Definition cat_a : Category :=
  {| cat_id := js "1"; cat_name := js "Apparel"; cat_slug := js "apparel" |}.

Definition cat_ab : Category :=
  {| cat_id := js "2"; cat_name := js "Abacus"; cat_slug := js "abacus" |}.

Definition shoes : Category :=
  {| cat_id := js "c1"; cat_name := js "Shoes"; cat_slug := js "shoes" |}.

Definition sneaker : Product :=
  {| prod_id := js "p1"; prod_name := js "Sneaker"; prod_slug := js "sneaker-42";
     prod_brand := js "Roven" |}.

(** One cycle in flight, for "a". *)
Definition one_in_flight : State :=
  advance 350 (step (mount true) (Change (js "a"))).

(** Two cycles in flight: cycle 0 for "a", then cycle 1 for "ab". *)
Definition two_in_flight : State :=
  advance 350 (step one_in_flight (Change (js "ab"))).

(** The newer cycle is answered first, the older one after it. *)
Definition newer_then_older : list Event :=
  [CategoryDone 1 (Fulfilled (ok_categories [cat_ab]));
   ProductDone 1 (Fulfilled (ok_products []));
   CategoryDone 0 (Fulfilled (ok_categories [cat_a]));
   ProductDone 0 (Fulfilled (ok_products []))].

(** The same race as one run from mounting. *)
Definition race : list Event :=
  Change (js "a") :: repeat Tick 350
  ++ Change (js "ab") :: repeat Tick 350
  ++ newer_then_older.

(** "zzznotfound" typed, both lookups answered with nothing. *)
Definition zzz : State :=
  run (advance 350 (step (mount true) (Change (js "zzznotfound"))))
    [CategoryDone 0 (Fulfilled (ok_categories []));
     ProductDone 0 (Fulfilled (ok_products []))].

(** "s" typed, one category and one product found. *)
Definition shoe_results : State :=
  run (advance 350 (step (mount true) (Change (js "s"))))
    [CategoryDone 0 (Fulfilled (ok_categories [shoes]));
     ProductDone 0 (Fulfilled (ok_products [sneaker]))].

(** A query that is a high surrogate with no low surrogate after it. *)
Definition lone_surrogate : jsstring := [0xD83D%N].

(** Results for "s" on screen, then "sh" typed and its category lookup
    failed: the ResultSet and the error are both set. *)
Definition results_and_error : State :=
  step (advance 350 (step shoe_results (Change (js "sh"))))
    (CategoryDone 1 Rejected).

(** "a b" typed 349 units ago, and the state one tick later. *)
Definition about_to_fire : State :=
  advance 349 (step (mount true) (Change (js "a b"))).

Definition fired : State := step about_to_fire Tick.

(** ** Proof automation *)

(** [same_requests] for a step that makes a call that is not a request. *)
Ltac no_request :=
  split; simpl; auto; unfold gets; rewrite ?flat_map_app; simpl;
  auto using app_nil_r.

(** ** Further notions *)

(** What one run of the timer callback for the query [q] sends: nothing for
    a query the search effect schedules no timer for, nothing when the URL
    cannot be built, the pair of lookups otherwise. *)
Definition cycle_calls (q : jsstring) : list Call :=
  if truthy (trim q) then
    match encodeURIComponent q with
    | Some e => lookups e
    | None => []
    end
  else [].

(** Every element is a code unit, below 2^16. *)
Definition code_units (q : jsstring) : Prop := Forall (fun c => (c < 65536)%N) q.

(** A character [encodeURIComponent] can produce: an unreserved one or the
    percent sign. *)
Definition url_safe (c : N) : Prop := unreserved c = true \/ c = 0x25%N.

(** While the overlay is closed the query is empty. *)
Definition closed_clean (s : State) : Prop := open s = false -> query s = [].

(** The cycles in flight were started earlier than the next one will be. *)
Definition ids_bounded (s : State) : Prop :=
  Forall (fun c => cycle_id c < next_cycle s) (inflight s).

(** [e] is the answer to a lookup. *)
Definition is_response (e : Event) : bool :=
  match e with
  | CategoryDone _ _ | ProductDone _ _ => true
  | _ => false
  end.

(** The result list is on screen: lines 86, 124, 131 and 134. *)
Definition visible (s : State) : bool :=
  open s && truthy (query s) && negb (loading s) && negb (truthy (error s)).

(** What lines 62 and 63 read off a response body that is there. *)
Definition body_categories (b : CategoryBody) : list Category :=
  match cb_data b with Some l => l | None => [] end.

Definition body_products (b : ProductBody) : list Product :=
  match pb_data b with
  | Some d => match pd_products d with Some l => l | None => [] end
  | None => []
  end.

(** The older of two cycles in flight has failed; the newer one has its
    category lookup answered and waits for the product lookup. *)
Definition older_failed : State :=
  run two_in_flight
    [CategoryDone 0 Rejected;
     CategoryDone 1 (Fulfilled (ok_categories [cat_ab]))].

(** The overlay closed 100 units after "a" was typed. *)
Definition closed_mid_typing : State :=
  step (advance 100 (step (mount true) (Change (js "a")))) (SetOpen false).


(** The overlay closed with the cycle for "a" in flight, and the cycle
    answered after that. *)
Definition answered_while_closed : State :=
  run one_in_flight
    [SetOpen false;
     CategoryDone 0 (Fulfilled (ok_categories [cat_a]));
     ProductDone 0 (Fulfilled (ok_products []))].

(** * Properties *)

(** ** JavaScript strings *)

Example js_abc : js "abc" = [97; 98; 99]%N.
Proof. reflexivity. Qed.

Example trim_padded : trim (js "  a b ") = js "a b".
Proof. reflexivity. Qed.

(** U+00A0 and U+FEFF are white space for [trim]. *)
Example trim_unicode : trim [0xA0; 0x61; 0xFEFF]%N = js "a".
Proof. reflexivity. Qed.

Example encode_reserved : encodeURIComponent (js "a b&c") = Some (js "a%20b%26c").
Proof. reflexivity. Qed.

(** U+00E9 is two UTF-8 bytes, U+1F600 (a surrogate pair) four. *)
Example encode_e_acute : encodeURIComponent [0xE9]%N = Some (js "%C3%A9").
Proof. reflexivity. Qed.

Example encode_pair :
  encodeURIComponent [0xD83D; 0xDE00]%N = Some (js "%F0%9F%98%80").
Proof. reflexivity. Qed.

Example encode_lone_surrogate : encodeURIComponent lone_surrogate = None.
Proof. reflexivity. Qed.

Lemma jseqb_eq (a b : jsstring) : jseqb a b = true <-> a = b.
Proof.
  revert b; induction a as [|x a IH]; intros [|y b]; simpl; split;
    try congruence; try reflexivity.
  - intros H. apply andb_true_iff in H as [Hx Hab].
    apply N.eqb_eq in Hx. apply IH in Hab. congruence.
  - intros H. injection H as -> ->. rewrite N.eqb_refl. simpl. now apply IH.
Qed.

Lemma jseqb_refl (a : jsstring) : jseqb a a = true.
Proof. now apply jseqb_eq. Qed.

Arguments jseqb : simpl never.
Arguments trim : simpl never.
Arguments encodeURIComponent : simpl never.

(** ** Lists *)

Lemma filter_none {A : Type} (f : A -> bool) (l : list A) :
  forallb (fun x => negb (f x)) l = true -> filter f l = [].
Proof.
  induction l as [|x l IH]; simpl; auto.
  intros H. apply andb_true_iff in H as [Hx Hl].
  destruct (f x); [discriminate|auto].
Qed.

Lemma filter_all {A : Type} (f : A -> bool) (l : list A) :
  forallb f l = true -> filter f l = l.
Proof.
  induction l as [|x l IH]; simpl; auto.
  intros H. apply andb_true_iff in H as [Hx Hl]. rewrite Hx. f_equal; auto.
Qed.

Lemma last_cons {A : Type} (l : list A) (x d : A) : last (x :: l) d = last l x.
Proof.
  revert x d; induction l as [|y l IH]; intros x d; [reflexivity|].
  change (last (x :: y :: l) d) with (last (y :: l) d).
  now rewrite !IH.
Qed.

Lemma gets_app (a b : list Call) : gets (a ++ b) = gets a ++ gets b.
Proof. apply flat_map_app. Qed.

(** ** The search effect *)

Section SearchEffect.

Variable s : State.

Lemma inv_tracked : debounce_inv s -> timer_tracked s.
Proof.
  unfold debounce_inv, timer_tracked.
  destruct (timers s) as [|t [|t' l]]; tauto.
Qed.

Lemma tracked_no_timer : timers s = [] -> timer_tracked s.
Proof. unfold timer_tracked. now intros ->. Qed.

(** With the pending timer tracked, the cleanup empties the queue. *)
Lemma search_cleanup_tracked :
  timer_tracked s -> search_cleanup s = with_timers (next_timer s) [] s.
Proof.
  unfold timer_tracked, search_cleanup, clear_debounce, clearTimeout.
  destruct s as [o q l r e d c n nt ts nc fl lg]; simpl.
  destruct ts as [|t [|t' ts]]; simpl.
  - intros _. destruct c, d; reflexivity.
  - intros [-> ->]. simpl. now rewrite Nat.eqb_refl.
  - tauto.
Qed.

Lemma search_effect_blank :
  truthy (trim (query s)) = false ->
  search_effect s = with_cleanup false (setError [] (setResults no_results s)).
Proof. unfold search_effect. now intros ->. Qed.

Lemma search_effect_fresh :
  truthy (trim (query s)) = true -> timers s = [] ->
  search_effect s =
    with_cleanup true
      (with_debounceTimeout (Some (next_timer s))
         (with_timers (S (next_timer s))
            [{| timer_id := next_timer s; timer_due := now s + 350;
                timer_query := query s |}]
            (setError [] (setLoading true s)))).
Proof.
  unfold search_effect, clear_debounce, clearTimeout, setTimeout.
  destruct s as [o q l r e d c n nt ts nc fl lg]; simpl.
  intros -> ->. simpl. destruct d; reflexivity.
Qed.

End SearchEffect.

(** A changed query, in a state whose timer is tracked: the old timer is
    gone; a query with something in it gets a new one, 350 units ahead. *)
Lemma query_changed_eq (s : State) :
  timer_tracked s ->
  query_changed s =
    if truthy (trim (query s)) then
      with_cleanup true
        (with_debounceTimeout (Some (next_timer s))
           (with_timers (S (next_timer s))
              [{| timer_id := next_timer s; timer_due := now s + 350;
                  timer_query := query s |}]
              (setError [] (setLoading true s))))
    else
      with_cleanup false
        (setError [] (setResults no_results (with_timers (next_timer s) [] s))).
Proof.
  intros H. unfold query_changed. rewrite search_cleanup_tracked by assumption.
  destruct (truthy (trim (query s))) eqn:E.
  - rewrite search_effect_fresh by (simpl; auto). reflexivity.
  - rewrite search_effect_blank by (simpl; auto). reflexivity.
Qed.

Lemma query_changed_inv (s : State) : timer_tracked s -> debounce_inv (query_changed s).
Proof.
  intros H. rewrite query_changed_eq by assumption.
  destruct (truthy (trim (query s))) eqn:E; unfold debounce_inv; simpl; auto.
  repeat split; auto; lia.
Qed.

(** Whatever the timer side looks like, the search effect with its cleanup
    writes only that side and, of the state cells, [error] and one of
    [loading] and [results]. *)
Lemma query_changed_frame (s : State) :
  exists nt ts d c,
    query_changed s =
      with_cleanup c
        (with_debounceTimeout d
           (with_timers nt ts
              (setError []
                 (if truthy (trim (query s)) then setLoading true s
                  else setResults no_results s)))).
Proof.
  unfold query_changed, search_cleanup, search_effect, clear_debounce,
    setTimeout, clearTimeout.
  destruct s as [o q l r e d c n nt ts nc fl lg]; simpl.
  destruct c, d as [id|]; simpl; destruct (truthy (trim q)); simpl;
    eexists _, _, _, _; reflexivity.
Qed.

Lemma change_frame (v : jsstring) (s : State) :
  change v s = s \/
  exists nt ts d c,
    change v s =
      with_cleanup c
        (with_debounceTimeout d
           (with_timers nt ts
              (setError []
                 (if truthy (trim v) then setLoading true (setQuery v s)
                  else setResults no_results (setQuery v s))))).
Proof.
  unfold change. destruct (jseqb v (query s)); [now left|right].
  apply (query_changed_frame (setQuery v s)).
Qed.

Lemma set_open_frame (b : bool) (s : State) :
  set_open b s = s
  \/ (b = true /\ set_open b s = call Focus (with_open true s))
  \/ (b = false /\ exists nt ts d c,
        set_open b s =
          with_cleanup c
            (with_debounceTimeout d
               (with_timers nt ts
                  (setError []
                     (setResults no_results (setQuery [] (with_open false s))))))).
Proof.
  unfold set_open. destruct (Bool.eqb b (open s)) eqn:Eb; [now left|right].
  destruct b; [left|right]; split; auto.
  - unfold open_effect. simpl. now rewrite jseqb_refl.
  - unfold open_effect. simpl. destruct (jseqb [] (query s)).
    + exists (next_timer s), (timers s), (debounceTimeout s), (has_cleanup s).
      destruct s; reflexivity.
    + destruct (query_changed_frame
                  (setError [] (setResults no_results (setQuery [] (with_open false s)))))
        as (nt & ts & d & c & ->).
      exists nt, ts, d, c. destruct s; reflexivity.
Qed.

Lemma change_tracked_eq (q : jsstring) (s : State) :
  timer_tracked s ->
  change q s =
    if jseqb q (query s) then s
    else if truthy (trim q) then
      with_cleanup true
        (with_debounceTimeout (Some (next_timer s))
           (with_timers (S (next_timer s))
              [{| timer_id := next_timer s; timer_due := now s + 350;
                  timer_query := q |}]
              (setError [] (setLoading true (setQuery q s)))))
    else
      with_cleanup false
        (setError []
           (setResults no_results (with_timers (next_timer s) [] (setQuery q s)))).
Proof.
  intros Ht. unfold change. destruct (jseqb q (query s)); auto.
  now rewrite query_changed_eq by exact Ht.
Qed.

Lemma set_open_tracked_eq (b : bool) (s : State) :
  timer_tracked s ->
  set_open b s =
    if Bool.eqb b (open s) then s
    else if b then call Focus (with_open true s)
    else if jseqb [] (query s) then
      setError [] (setResults no_results (setQuery [] (with_open false s)))
    else
      with_cleanup false
        (setError []
           (setResults no_results
              (with_timers (next_timer s) [] (setQuery [] (with_open false s))))).
Proof.
  intros Ht. unfold set_open. destruct (Bool.eqb b (open s)); auto.
  destruct b; unfold open_effect; simpl.
  - now rewrite jseqb_refl.
  - destruct (jseqb [] (query s)); auto.
    rewrite query_changed_eq by exact Ht. simpl. destruct s; reflexivity.
Qed.

(** ** What leaves the timers alone *)

Lemma same_timing_refl (s : State) : same_timing s s.
Proof. repeat split. Qed.

Lemma same_timing_trans (s1 s2 s3 : State) :
  same_timing s1 s2 -> same_timing s2 s3 -> same_timing s1 s3.
Proof.
  unfold same_timing. intros (? & ? & ? & ? & ? & ? & ?) (? & ? & ? & ? & ? & ? & ?).
  repeat split; congruence.
Qed.

Lemma same_timing_inv (s s' : State) :
  same_timing s s' -> debounce_inv s -> debounce_inv s'.
Proof.
  unfold same_timing, debounce_inv. intros (-> & -> & -> & -> & -> & _). auto.
Qed.

Lemma fetch_start_timing (q : jsstring) (s : State) : same_timing s (fetch_start q s).
Proof.
  unfold fetch_start. destruct (encodeURIComponent q); repeat split.
Qed.

Lemma fetch_fulfilled_timing (c : CategoryResponse) (p : ProductResponse) (s : State) :
  same_timing s (fetch_fulfilled c p s).
Proof.
  unfold fetch_fulfilled.
  destruct (read_categories c); [destruct (read_products p)|]; repeat split.
Qed.

Lemma category_done_timing (id : nat) (o : Outcome CategoryResponse) (s : State) :
  same_timing s (category_done id o s).
Proof.
  unfold category_done. destruct (find_cycle id s) as [c|]; [|apply same_timing_refl].
  destruct (cat_res c); [apply same_timing_refl|].
  destruct o as [v|]; [|repeat split].
  destruct (prod_res c) as [p|]; [|repeat split].
  eapply same_timing_trans; [|apply fetch_fulfilled_timing]. repeat split.
Qed.

Lemma product_done_timing (id : nat) (o : Outcome ProductResponse) (s : State) :
  same_timing s (product_done id o s).
Proof.
  unfold product_done. destruct (find_cycle id s) as [c|]; [|apply same_timing_refl].
  destruct (prod_res c); [apply same_timing_refl|].
  destruct o as [v|]; [|repeat split].
  destruct (cat_res c) as [p|]; [|repeat split].
  eapply same_timing_trans; [|apply fetch_fulfilled_timing]. repeat split.
Qed.

Lemma handleResultClick_timing (k : Kind) (slug : jsstring) (s : State) :
  same_timing s (handleResultClick k slug s).
Proof. destruct k; repeat split. Qed.

Lemma handleEscape_timing (key : jsstring) (s : State) :
  same_timing s (handleEscape key s).
Proof. unfold handleEscape. destruct (jseqb key (js "Escape")); repeat split. Qed.

Create HintDb timing.
#[local] Hint Resolve same_timing_refl fetch_start_timing fetch_fulfilled_timing
  category_done_timing product_done_timing handleResultClick_timing
  handleEscape_timing : timing.

Lemma fetch_start_timers (q : jsstring) (s : State) :
  timers (fetch_start q s) = timers s.
Proof. apply fetch_start_timing. Qed.

Lemma fetch_start_now (q : jsstring) (s : State) : now (fetch_start q s) = now s.
Proof. apply fetch_start_timing. Qed.

(** ** Time *)

(** A tick with no timer due only moves the clock. *)
Lemma tick_idle (s : State) :
  forallb (fun x => negb (is_due (S (now s)) x)) (timers s) = true ->
  tick s = with_now (S (now s)) s.
Proof.
  unfold tick. intros H.
  rewrite (filter_none _ _ H), (filter_all _ _ H). simpl.
  destruct s; reflexivity.
Qed.

(** A tick at which the one pending timer is due runs its callback. *)
Lemma tick_fire (s : State) (t : Timer) :
  timers s = [t] -> is_due (S (now s)) t = true ->
  tick s = fetch_start (timer_query t)
             (with_timers (next_timer s) [] (with_now (S (now s)) s)).
Proof.
  unfold tick. intros -> H. simpl. rewrite H. reflexivity.
Qed.

Lemma advance_add (a b : nat) (s : State) :
  advance (a + b) s = advance b (advance a s).
Proof. revert s; induction a as [|a IH]; intros s; simpl; auto. Qed.

Lemma with_now_same (s : State) : with_now (now s) s = s.
Proof. destruct s; reflexivity. Qed.

(** While no pending timer comes due, waiting only moves the clock. *)
Lemma advance_idle (d : nat) (s : State) :
  forallb (fun x => now s + d <? timer_due x) (timers s) = true ->
  advance d s = with_now (now s + d) s.
Proof.
  revert s; induction d as [|d IH]; intros s H; simpl.
  - now rewrite Nat.add_0_r, with_now_same.
  - assert (Hidle : forallb (fun x => negb (is_due (S (now s)) x)) (timers s) = true).
    { rewrite forallb_forall in *. intros x Hx. specialize (H x Hx).
      apply Nat.ltb_lt in H. unfold is_due. apply negb_true_iff, Nat.leb_gt. lia. }
    rewrite (tick_idle s Hidle), IH; simpl.
    + now rewrite Nat.add_succ_r.
    + rewrite forallb_forall in *. intros x Hx. specialize (H x Hx).
      apply Nat.ltb_lt in H. apply Nat.ltb_lt. lia.
Qed.

Lemma fetch_start_later (n m : nat) (q : jsstring) (k : nat) (s : State) :
  with_now n (fetch_start q (with_timers k [] (with_now m s))) =
  with_now n (fetch_start q (with_timers k [] s)).
Proof.
  unfold fetch_start. destruct (encodeURIComponent q); destruct s; reflexivity.
Qed.

(** Waiting past the due time of the one pending timer runs its callback,
    once. *)
Lemma advance_fire (p : nat) (s : State) (t : Timer) :
  timers s = [t] -> now s < timer_due t <= now s + p ->
  advance p s =
    with_now (now s + p)
      (fetch_start (timer_query t) (with_timers (next_timer s) [] s)).
Proof.
  revert s; induction p as [|p IH]; intros s E [Hlo Hhi]; [lia|].
  simpl. destruct (is_due (S (now s)) t) eqn:D.
  - rewrite (tick_fire s t E D), advance_idle
      by (now rewrite fetch_start_timers).
    rewrite fetch_start_now, fetch_start_later. simpl.
    now rewrite Nat.add_succ_r.
  - unfold is_due in D. apply Nat.leb_gt in D.
    rewrite tick_idle
      by (rewrite E; simpl; unfold is_due; rewrite andb_true_r;
          apply negb_true_iff, Nat.leb_gt; lia).
    rewrite (IH (with_now (S (now s)) s) E) by (simpl; lia).
    simpl. now rewrite fetch_start_later, Nat.add_succ_r.
Qed.

(** ** The debounce invariant *)

Lemma tick_inv (s : State) : debounce_inv s -> debounce_inv (tick s).
Proof.
  intros H. unfold debounce_inv in H.
  destruct (timers s) as [|t [|t' l]] eqn:E; try tauto.
  - rewrite tick_idle by (rewrite E; reflexivity).
    unfold debounce_inv; simpl. now rewrite E.
  - destruct (is_due (S (now s)) t) eqn:D.
    + rewrite (tick_fire s t E D).
      eapply same_timing_inv; [apply fetch_start_timing|]. exact I.
    + rewrite tick_idle by (rewrite E; simpl; now rewrite D).
      unfold debounce_inv; simpl. rewrite E.
      unfold is_due in D. apply Nat.leb_gt in D.
      destruct H as (? & ? & ? & ? & ? & ?). repeat split; auto; lia.
Qed.

Lemma change_inv (v : jsstring) (s : State) :
  debounce_inv s -> debounce_inv (change v s).
Proof.
  intros H. unfold change. destruct (jseqb v (query s)); auto.
  apply query_changed_inv. now apply inv_tracked in H.
Qed.

Lemma set_open_inv (b : bool) (s : State) :
  debounce_inv s -> debounce_inv (set_open b s).
Proof.
  intros H. rewrite set_open_tracked_eq by now apply inv_tracked.
  destruct (Bool.eqb b (open s)); auto. destruct b; auto.
  unfold debounce_inv in *. destruct (jseqb [] (query s)) eqn:E; simpl; auto.
  apply jseqb_eq in E.
  destruct (timers s) as [|t [|t' l]]; auto.
  destruct H as (_ & _ & _ & H & _). rewrite <- E in H. discriminate.
Qed.

Lemma step_inv (s : State) (e : Event) : debounce_inv s -> debounce_inv (step s e).
Proof.
  intros H. destruct e; simpl.
  - now apply set_open_inv.
  - destruct (open s); auto. now apply change_inv.
  - destruct (open s); auto. eapply same_timing_inv; eauto with timing.
  - destruct (open s); auto.
  - destruct (nth_error (rendered_rows s) i); auto.
    eapply same_timing_inv; eauto with timing.
  - now apply tick_inv.
  - eapply same_timing_inv; eauto with timing.
  - eapply same_timing_inv; eauto with timing.
Qed.

Lemma reachable_inv (s : State) : reachable s -> debounce_inv s.
Proof.
  induction 1 as [o|s e _ IH]; [destruct o; exact I|now apply step_inv].
Qed.

Lemma reachable_advance (n : nat) (s : State) :
  reachable s -> reachable (advance n s).
Proof.
  revert s; induction n as [|n IH]; intros s H; simpl; auto.
  apply IH. exact (reachable_step s Tick H).
Qed.

Lemma advance_ticks (n : nat) (s : State) : advance n s = run s (repeat Tick n).
Proof. revert s; induction n as [|n IH]; intros s; simpl; auto. Qed.

Lemma reachable_run (evs : list Event) (s : State) :
  reachable s -> reachable (run s evs).
Proof.
  revert s; induction evs as [|e evs IH]; intros s H; simpl; auto.
  apply IH. now constructor.
Qed.

(** In a reachable state a pending timer is the only one, it is for the
    current query, and it is due within 350 units. *)
Lemma reachable_timer (s : State) (t : Timer) :
  reachable s -> In t (timers s) ->
  timers s = [t] /\ timer_query t = query s
  /\ now s < timer_due t <= now s + 350.
Proof.
  intros H Hin. apply reachable_inv in H. unfold debounce_inv in H.
  destruct (timers s) as [|t0 [|t' l]]; try contradiction.
  destruct Hin as [->|[]]. tauto.
Qed.

(** ** Typing *)

Lemma change_just_typed (s : State) (q : jsstring) :
  open s = true -> timer_tracked s -> jseqb q (query s) = false ->
  just_typed (step s (Change q))
  /\ query (step s (Change q)) = q
  /\ log (step s (Change q)) = log s.
Proof.
  intros Ho Ht Hq. simpl. rewrite Ho, change_tracked_eq, Hq by exact Ht.
  unfold just_typed, timer_tracked.
  destruct (truthy (trim q)) eqn:E; simpl; rewrite ?E; auto 10.
Qed.

Lemma just_typed_wait (s : State) (d : nat) :
  just_typed s -> d < 350 -> advance d s = with_now (now s + d) s.
Proof.
  intros (_ & Ht & Hf) Hd. apply advance_idle.
  unfold timer_tracked in Ht.
  destruct (timers s) as [|t [|t' l]]; try tauto. simpl.
  rewrite andb_true_r. apply Nat.ltb_lt. destruct Hf as [-> _]. lia.
Qed.

Lemma keystroke_just_typed (s : State) (d : nat) (q : jsstring) :
  just_typed s -> d < 350 -> jseqb q (query s) = false ->
  just_typed (keystroke s (d, q))
  /\ query (keystroke s (d, q)) = q
  /\ log (keystroke s (d, q)) = log s.
Proof.
  intros H Hd Hq. unfold keystroke. simpl fst; simpl snd.
  rewrite (just_typed_wait s d H Hd).
  destruct H as (Ho & Ht & _).
  apply (change_just_typed (with_now (now s + d) s) q); auto.
Qed.

(** Keystrokes less than 350 units apart, each changing the value: no
    callback runs, and the timer pending at the end is the last one's. *)
Lemma type_keys_just_typed (ks : list (nat * jsstring)) :
  forall s,
    just_typed s ->
    mutations (query s) (map snd ks) = true ->
    forallb (fun k => fst k <? 350) ks = true ->
    just_typed (type_keys s ks)
    /\ query (type_keys s ks) = last (map snd ks) (query s)
    /\ log (type_keys s ks) = log s.
Proof.
  induction ks as [|[d q] ks IH]; intros s H Hm Hd; [now auto|].
  simpl in Hm, Hd.
  apply andb_true_iff in Hm as [Hq Hm]. apply negb_true_iff in Hq.
  apply andb_true_iff in Hd as [Hd Hds]. apply Nat.ltb_lt in Hd.
  destruct (keystroke_just_typed s d q H Hd Hq) as (H1 & Q1 & L1).
  unfold type_keys in *. simpl fold_left.
  destruct (IH (keystroke s (d, q)) H1) as (H2 & Q2 & L2); auto.
  { now rewrite Q1. }
  repeat split; try apply H2.
  - rewrite Q2, Q1. cbn [map snd]. now rewrite last_cons.
  - now rewrite L2.
Qed.

Lemma fetch_start_log (q : jsstring) (s : State) :
  log (fetch_start q s) =
    log s ++ match encodeURIComponent q with Some e => lookups e | None => [] end.
Proof.
  unfold fetch_start. destruct (encodeURIComponent q); simpl.
  - now rewrite <- app_assoc.
  - now rewrite app_nil_r.
Qed.

(** A pause of 350 units or more after a keystroke that left something to
    search for: the callback runs once. *)
Lemma just_typed_pause (s : State) (p : nat) :
  just_typed s -> truthy (trim (query s)) = true -> 350 <= p ->
  log (advance p s) =
    log s ++ match encodeURIComponent (query s) with
             | Some e => lookups e
             | None => []
             end
  /\ timers (advance p s) = [].
Proof.
  intros (_ & Ht & Hf) Hb Hp. unfold timer_tracked in Ht.
  destruct (timers s) as [|t [|t' l]] eqn:E; try tauto; [congruence|].
  destruct Hf as (Hdue & Hq & _).
  rewrite (advance_fire p s t E) by lia. simpl.
  rewrite fetch_start_timers, Hq, fetch_start_log.
  split; reflexivity.
Qed.

(** After a keystroke that left nothing to search for, no wait sends
    anything. *)
Lemma just_typed_blank (s : State) (p : nat) :
  just_typed s -> truthy (trim (query s)) = false ->
  log (advance p s) = log s /\ timers (advance p s) = [].
Proof.
  intros (_ & _ & Hf) Hb.
  destruct (timers s) as [|t l] eqn:E; [|destruct Hf as (_ & _ & Hf); congruence].
  rewrite advance_idle by (now rewrite E). simpl. auto.
Qed.

(** What a keystroke that changes the value writes besides the timer. *)
Lemma change_fields (s : State) (q : jsstring) :
  open s = true -> timer_tracked s -> jseqb q (query s) = false ->
  error (step s (Change q)) = []
  /\ inflight (step s (Change q)) = inflight s
  /\ next_cycle (step s (Change q)) = next_cycle s
  /\ (truthy (trim q) = true ->
      loading (step s (Change q)) = true
      /\ results (step s (Change q)) = results s).
Proof.
  intros Ho Ht Hq. simpl. rewrite Ho, change_tracked_eq, Hq by exact Ht.
  destruct (truthy (trim q)); simpl; repeat split; auto; discriminate.
Qed.

Lemma keystroke_fields (s : State) (d : nat) (q : jsstring) :
  just_typed s -> d < 350 -> jseqb q (query s) = false ->
  error (keystroke s (d, q)) = []
  /\ inflight (keystroke s (d, q)) = inflight s
  /\ next_cycle (keystroke s (d, q)) = next_cycle s
  /\ (truthy (trim q) = true ->
      loading (keystroke s (d, q)) = true
      /\ results (keystroke s (d, q)) = results s).
Proof.
  intros H Hd Hq. unfold keystroke. simpl fst; simpl snd.
  rewrite (just_typed_wait s d H Hd).
  destruct H as (Ho & Ht & _).
  apply (change_fields (with_now (now s + d) s) q); auto.
Qed.

(** Through the keystrokes no cycle starts, and at the end the state cells
    are as the last run of the search effect left them. *)
Lemma type_keys_fields (ks : list (nat * jsstring)) :
  forall s,
    just_typed s ->
    mutations (query s) (map snd ks) = true ->
    forallb (fun k => fst k <? 350) ks = true ->
    error s = [] ->
    (truthy (trim (query s)) = true -> loading s = true) ->
    error (type_keys s ks) = []
    /\ inflight (type_keys s ks) = inflight s
    /\ next_cycle (type_keys s ks) = next_cycle s
    /\ (truthy (trim (query (type_keys s ks))) = true ->
        loading (type_keys s ks) = true).
Proof.
  induction ks as [|[d q] ks IH]; intros s H Hm Hd He Hl; [now auto|].
  simpl in Hm, Hd.
  apply andb_true_iff in Hm as [Hq Hm]. apply negb_true_iff in Hq.
  apply andb_true_iff in Hd as [Hd Hds]. apply Nat.ltb_lt in Hd.
  destruct (keystroke_just_typed s d q H Hd Hq) as (H1 & Q1 & _).
  destruct (keystroke_fields s d q H Hd Hq) as (E1 & I1 & N1 & L1).
  unfold type_keys in *. simpl fold_left.
  destruct (IH (keystroke s (d, q)) H1) as (E2 & I2 & N2 & L2); auto.
  - now rewrite Q1.
  - rewrite Q1. intros Hb. now apply L1.
  - repeat split; auto; congruence.
Qed.

(** What the one run of the callback does to the state: a cycle goes in
    flight, or the attempt ends in the [catch] and [finally] blocks. *)
Lemma just_typed_pause_state (s : State) (p : nat) :
  just_typed s -> truthy (trim (query s)) = true -> 350 <= p ->
  results (advance p s) = results s
  /\ match encodeURIComponent (query s) with
     | Some e =>
         error (advance p s) = error s /\ loading (advance p s) = loading s
         /\ inflight (advance p s) =
              inflight s ++
                [{| cycle_id := next_cycle s; cat_res := None; prod_res := None |}]
     | None =>
         error (advance p s) = search_failed /\ loading (advance p s) = false
         /\ inflight (advance p s) = inflight s
     end.
Proof.
  intros (_ & Ht & Hf) Hb Hp. unfold timer_tracked in Ht.
  destruct (timers s) as [|t [|t' l]] eqn:E; try tauto; [congruence|].
  destruct Hf as (Hdue & Hq & _).
  rewrite (advance_fire p s t E) by lia. rewrite Hq. unfold fetch_start.
  destruct (encodeURIComponent (query s)); simpl; auto.
Qed.

(** C1 (amended).  Debounce of the fetch dispatcher.  In every reachable
    state at most one deferred action is pending, and it is the one for the
    current query, due within 350 time units: a timer scheduled for an earlier
    value has been cancelled.  When the query is mutated by [q0] and then by
    the values of [ks], each less than 350 units after the one before, and
    the final value does not trim to nothing: no lookup is issued while the
    typing goes on nor during a wait shorter than 350 units, and exactly one
    deferred action is left pending, for the final value, due 350 units after
    the last keystroke; a pause of 350 units or more runs that action, once,
    and leaves none pending.  When the final value can be URL-encoded the
    action issues exactly one pair of lookups, for that value, and puts one
    cycle in flight, Error and Loading staying as the last keystroke set
    them (empty, true); when the value holds an unpaired surrogate,
    [encodeURIComponent] throws inside the [try] block: no lookup is issued,
    no cycle goes in flight, Error becomes "Search failed." and Loading
    false.  In both cases the ResultSet is what it was before the typing. *)
Theorem debounce_final_query (s : State) (q0 : jsstring)
    (ks : list (nat * jsstring)) (p : nat) :
  reachable s -> open s = true ->
  mutations (query s) (q0 :: map snd ks) = true ->
  forallb (fun k => fst k <? 350) ks = true ->
  350 <= p ->
  truthy (trim (last (map snd ks) q0)) = true ->
  (forall r t, reachable r -> In t (timers r) ->
               timers r = [t] /\ timer_query t = query r
               /\ now r < timer_due t <= now r + 350)
  /\ (forall d, d < 350 ->
        log (advance d (type_keys (step s (Change q0)) ks)) = log s)
  /\ log (advance p (type_keys (step s (Change q0)) ks)) =
       log s ++ match encodeURIComponent (last (map snd ks) q0) with
                | Some e => lookups e
                | None => []
                end
  /\ timers (advance p (type_keys (step s (Change q0)) ks)) = []
  /\ (exists t,
        timers (type_keys (step s (Change q0)) ks) = [t]
        /\ timer_query t = last (map snd ks) q0
        /\ timer_due t = now (type_keys (step s (Change q0)) ks) + 350)
  /\ match encodeURIComponent (last (map snd ks) q0) with
     | Some e =>
         error (advance p (type_keys (step s (Change q0)) ks)) = []
         /\ loading (advance p (type_keys (step s (Change q0)) ks)) = true
         /\ inflight (advance p (type_keys (step s (Change q0)) ks)) =
              inflight s ++
                [{| cycle_id := next_cycle s; cat_res := None; prod_res := None |}]
     | None =>
         error (advance p (type_keys (step s (Change q0)) ks)) = search_failed
         /\ loading (advance p (type_keys (step s (Change q0)) ks)) = false
         /\ inflight (advance p (type_keys (step s (Change q0)) ks)) = inflight s
     end
  /\ (forall q, encodeURIComponent q = None ->
        error (fetch_start q s) = search_failed
        /\ loading (fetch_start q s) = false
        /\ log (fetch_start q s) = log s).
Proof.
  intros Hr Ho Hm Hd Hp Hb. split; [exact reachable_timer|].
  simpl in Hm. apply andb_true_iff in Hm as [Hq Hm]. apply negb_true_iff in Hq.
  pose proof (inv_tracked s (reachable_inv s Hr)) as Ht.
  destruct (change_just_typed s q0 Ho Ht Hq) as (H1 & Q1 & L1).
  destruct (change_fields s q0 Ho Ht Hq) as (E1 & I1 & N1 & G1).
  destruct (type_keys_just_typed ks (step s (Change q0)) H1) as (H2 & Q2 & L2); auto.
  { now rewrite Q1. }
  destruct (type_keys_fields ks (step s (Change q0)) H1) as (E2 & I2 & N2 & G2); auto.
  { now rewrite Q1. }
  { rewrite Q1. intros Hq0. now apply G1. }
  rewrite Q1 in Q2. rewrite <- Q2 in Hb |- *.
  destruct (just_typed_pause _ p H2 Hb Hp) as [L3 T3].
  destruct (just_typed_pause_state _ p H2 Hb Hp) as [_ S3].
  split; [|split; [|split; [|split; [|split]]]]; auto.
  - intros d Hlt. rewrite (just_typed_wait _ d H2 Hlt).
    change (log (type_keys (step s (Change q0)) ks) = log s).
    now rewrite L2.
  - now rewrite L3, L2, L1.
  - destruct H2 as (_ & Htr & Hf). unfold timer_tracked in Htr.
    destruct (timers (type_keys (step s (Change q0)) ks)) as [|t [|t' l]];
      [congruence| |contradiction].
    exists t. destruct Hf as (Hdue & Htq & _). auto.
  - destruct (encodeURIComponent (query (type_keys (step s (Change q0)) ks)));
      destruct S3 as (S3e & S3l & S3i); repeat split; try congruence.
    rewrite S3l. now apply G2.
  - intros q Hn. unfold fetch_start. rewrite Hn. repeat split.
Qed.

(** "a", "ab", "abc" typed 100 and 200 units apart, then a pause of 350:
    one pair of lookups, for "abc".  A lone surrogate typed, then the same
    pause: the error state, with nothing in flight. *)
Lemma debounce_final_query_witness :
  log (advance 350
         (type_keys (step (mount true) (Change (js "a")))
            [(100, js "ab"); (200, js "abc")]))
  = [Focus; Get (js "/api/category/search?q=abc");
     Get (js "/api/product/search?q=abc&limit=10")]
  /\ (error (advance 350 (type_keys (step (mount true) (Change lone_surrogate)) []))
       = search_failed
      /\ loading (advance 350 (type_keys (step (mount true) (Change lone_surrogate)) []))
         = false
      /\ inflight (advance 350 (type_keys (step (mount true) (Change lone_surrogate)) []))
         = inflight (mount true)).
Proof.
  split.
  - exact (proj1 (proj2 (proj2
             (debounce_final_query (mount true) (js "a")
                [(100, js "ab"); (200, js "abc")] 350
                (reachable_mount true) eq_refl eq_refl eq_refl (le_n 350) eq_refl)))).
  - exact (proj1 (proj2 (proj2 (proj2 (proj2 (proj2
             (debounce_final_query (mount true) lone_surrogate [] 350
                (reachable_mount true) eq_refl eq_refl eq_refl (le_n 350)
                eq_refl))))))).
Defined.

(** C1 as stated fails for a query that does not trim to nothing but holds
    an unpaired surrogate: after the pause, however long, no lookup has been
    issued; the attempt ended in the [catch] block. *)
Lemma debounce_unpaired_surrogate :
  truthy (trim lone_surrogate) = true
  /\ gets (log (advance 350 (step (mount true) (Change lone_surrogate)))) = []
  /\ gets (log (advance 5000 (step (mount true) (Change lone_surrogate)))) = []
  /\ error (advance 350 (step (mount true) (Change lone_surrogate))) = search_failed
  /\ loading (advance 350 (step (mount true) (Change lone_surrogate))) = false.
Proof. vm_compute. auto. Qed.

(** ** Closing the overlay *)

(** C7.  When the overlay closes ([open] goes from true to false), the
    query is reset to the empty string, the ResultSet to
    [{categories: [], products: []}] and the error to the empty string. *)
Theorem close_resets (s : State) :
  open s = true ->
  open (step s (SetOpen false)) = false
  /\ query (step s (SetOpen false)) = []
  /\ results (step s (SetOpen false)) = no_results
  /\ error (step s (SetOpen false)) = [].
Proof.
  intros Ho. simpl.
  destruct (set_open_frame false s) as [E|[[E _]|[_ (nt & ts & d & c & ->)]]].
  - unfold set_open in E. rewrite Ho in E. simpl in E.
    assert (H : open s = false); [|congruence].
    rewrite <- E. unfold open_effect. simpl. destruct (jseqb [] (query s)).
    + reflexivity.
    + destruct (query_changed_frame
                  (setError [] (setResults no_results (setQuery [] (with_open false s)))))
        as (nt & ts & d & c & ->). reflexivity.
  - discriminate.
  - now simpl.
Qed.

(** Closing with results for "s" on screen. *)
Lemma close_resets_witness :
  open (step shoe_results (SetOpen false)) = false
  /\ query (step shoe_results (SetOpen false)) = []
  /\ results (step shoe_results (SetOpen false)) = no_results
  /\ error (step shoe_results (SetOpen false)) = [].
Proof. exact (close_resets shoe_results eq_refl). Defined.

(** ** The fetch attempt *)

Lemma find_cycle_id (id : nat) (s : State) (c : Cycle) :
  find_cycle id s = Some c -> cycle_id c = id.
Proof.
  unfold find_cycle. intros H. apply find_some in H as [_ H].
  now apply Nat.eqb_eq in H.
Qed.

Lemma find_cycle_update (id : nat) (s : State) (c c' : Cycle) :
  find_cycle id s = Some c -> cycle_id c' = id ->
  find_cycle id (update_cycle c' s) = Some c'.
Proof.
  unfold find_cycle, update_cycle. simpl. intros H <-.
  induction (inflight s) as [|x l IH]; simpl in *; [discriminate|].
  destruct (cycle_id x =? cycle_id c') eqn:E; simpl.
  - now rewrite Nat.eqb_refl.
  - rewrite E. auto.
Qed.

Lemma fetch_fulfilled_eq (catRes : CategoryResponse) (prodRes : ProductResponse)
    (s : State) :
  fetch_fulfilled catRes prodRes s =
    match cycle_result catRes prodRes with
    | Some r => setLoading false (setResults r s)
    | None => setLoading false (setError search_failed s)
    end.
Proof.
  unfold fetch_fulfilled, cycle_result.
  destruct (read_categories catRes); [destruct (read_products prodRes)|];
    reflexivity.
Qed.

Lemma fetch_fulfilled_loading (catRes : CategoryResponse)
    (prodRes : ProductResponse) (s : State) :
  loading (fetch_fulfilled catRes prodRes s) = false.
Proof.
  rewrite fetch_fulfilled_eq. destruct (cycle_result catRes prodRes); reflexivity.
Qed.

(** Every way a response can take the cycle out of flight clears Loading. *)
Lemma settled_loading (s : State) (id : nat) (c : Cycle) (e : Event) :
  find_cycle id s = Some c -> response_for id e = true ->
  find_cycle id (step s e) = None -> loading (step s e) = false.
Proof.
  intros Hf He. pose proof (find_cycle_id id s c Hf) as Hid.
  destruct e as [| | | | | |i o|i o]; try discriminate;
    simpl in He; apply Nat.eqb_eq in He; subst i; simpl.
  - unfold category_done. rewrite Hf.
    destruct (cat_res c); [congruence|].
    destruct o as [v|]; [|reflexivity].
    destruct (prod_res c); [intros _; apply fetch_fulfilled_loading|].
    rewrite (find_cycle_update id s c) by auto. discriminate.
  - unfold product_done. rewrite Hf.
    destruct (prod_res c); [congruence|].
    destruct o as [v|]; [|reflexivity].
    destruct (cat_res c); [intros _; apply fetch_fulfilled_loading|].
    rewrite (find_cycle_update id s c) by auto. discriminate.
Qed.

(** C2.  Error handling of a fetch cycle.  For a cycle in flight, when the
    category lookup fails, or when the product lookup fails (whatever the
    other one did), Error becomes exactly "Search failed.", Loading becomes
    false and the ResultSet keeps its prior value.  Loading is false after
    every exit from the fetch attempt: after any response that takes the
    cycle out of flight, fulfilled or rejected, and after a throw before the
    requests were sent. *)
Theorem failed_lookup (s : State) (id : nat) (c : Cycle) :
  find_cycle id s = Some c ->
  (cat_res c = None ->
     error (step s (CategoryDone id Rejected)) = search_failed
     /\ loading (step s (CategoryDone id Rejected)) = false
     /\ results (step s (CategoryDone id Rejected)) = results s)
  /\ (prod_res c = None ->
     error (step s (ProductDone id Rejected)) = search_failed
     /\ loading (step s (ProductDone id Rejected)) = false
     /\ results (step s (ProductDone id Rejected)) = results s)
  /\ (forall e, response_for id e = true ->
        find_cycle id (step s e) = None -> loading (step s e) = false)
  /\ (forall q, encodeURIComponent q = None ->
        loading (fetch_start q s) = false).
Proof.
  intros Hf. split; [|split; [|split]].
  - intros Hc. simpl. unfold category_done. rewrite Hf, Hc. now simpl.
  - intros Hp. simpl. unfold product_done. rewrite Hf, Hp. now simpl.
  - intros e. now apply settled_loading with (c := c).
  - intros q Hq. unfold fetch_start. now rewrite Hq.
Qed.

(** The category lookup for "a" is fulfilled and the product lookup fails;
    or the category lookup fails first. *)
Lemma failed_lookup_witness :
  (error (step one_in_flight (CategoryDone 0 Rejected)) = js "Search failed."
   /\ loading (step one_in_flight (CategoryDone 0 Rejected)) = false
   /\ results (step one_in_flight (CategoryDone 0 Rejected)) = no_results)
  /\ (error (run one_in_flight
               [CategoryDone 0 (Fulfilled (ok_categories [cat_a]));
                ProductDone 0 Rejected]) = js "Search failed."
      /\ loading (run one_in_flight
               [CategoryDone 0 (Fulfilled (ok_categories [cat_a]));
                ProductDone 0 Rejected]) = false
      /\ results (run one_in_flight
               [CategoryDone 0 (Fulfilled (ok_categories [cat_a]));
                ProductDone 0 Rejected]) = no_results).
Proof.
  split.
  - exact (proj1 (failed_lookup one_in_flight 0
                    {| cycle_id := 0; cat_res := None; prod_res := None |} eq_refl)
             eq_refl).
  - exact (proj1 (proj2 (failed_lookup
                    (step one_in_flight
                       (CategoryDone 0 (Fulfilled (ok_categories [cat_a])))) 0
                    {| cycle_id := 0; cat_res := Some (ok_categories [cat_a]);
                       prod_res := None |} eq_refl))
             eq_refl).
Defined.

(** ** Which response wins *)

Lemma fetch_start_results (q : jsstring) (s : State) :
  results (fetch_start q s) = results s.
Proof. unfold fetch_start. destruct (encodeURIComponent q); reflexivity. Qed.

Lemma fire_all_results (due : list Timer) (s : State) :
  results (fold_left (fun s x => fetch_start (timer_query x) s) due s) = results s.
Proof.
  revert s; induction due as [|x due IH]; intros s; simpl; auto.
  now rewrite IH, fetch_start_results.
Qed.

Lemma tick_results (s : State) : results (tick s) = results s.
Proof. unfold tick. now rewrite fire_all_results. Qed.

(** A response that completes a cycle writes the cycle's result, whatever
    was issued or completed before. *)
Lemma completes_step (s : State) (e : Event) (r : Results) :
  completes s e = Some r ->
  results (step s e) = r /\ loading (step s e) = false.
Proof.
  destruct e as [| | | | | |id [catRes|]|id [prodRes|]]; try discriminate; simpl.
  - unfold category_done. destruct (find_cycle id s) as [[i [c|] [p|]]|];
      try discriminate.
    intros H. simpl. rewrite fetch_fulfilled_eq, H. auto.
  - unfold product_done. destruct (find_cycle id s) as [[i [c|] [p|]]|];
      try discriminate.
    intros H. simpl. rewrite fetch_fulfilled_eq, H. auto.
Qed.

(** Apart from the two resets, only a completing response changes the
    ResultSet. *)
Lemma step_results (s : State) (e : Event) :
  resets e = false ->
  results (step s e) =
    match completes s e with Some r => r | None => results s end.
Proof.
  intros Hr. destruct (completes s e) as [r|] eqn:Hc.
  { now apply completes_step. }
  destruct e as [b|q|key| |i| |id o|id o]; simpl in *.
  - destruct b; [|discriminate].
    destruct (set_open_frame true s) as [->|[[_ ->]|[E _]]];
      try discriminate; reflexivity.
  - apply negb_false_iff in Hr. destruct (open s); auto.
    destruct (change_frame q s) as [->|(nt & ts & d & c & ->)]; auto.
    now rewrite Hr.
  - destruct (open s); auto. unfold handleEscape.
    destruct (jseqb key (js "Escape")); reflexivity.
  - destruct (open s); reflexivity.
  - destruct (nth_error (rendered_rows s) i) as [r|]; auto.
    destruct (fst (row_click r)); reflexivity.
  - apply tick_results.
  - unfold category_done.
    destruct (find_cycle id s) as [[i [c|] [p|]]|]; auto;
      destruct o as [v|]; auto; simpl in *.
    rewrite fetch_fulfilled_eq, Hc. reflexivity.
  - unfold product_done.
    destruct (find_cycle id s) as [[i [c|] [p|]]|]; auto;
      destruct o as [v|]; auto; simpl in *.
    rewrite fetch_fulfilled_eq, Hc. reflexivity.
Qed.

Lemma run_results (evs : list Event) :
  forall s,
    forallb (fun e => negb (resets e)) evs = true ->
    results (run s evs) = last_completed s evs (results s).
Proof.
  induction evs as [|e evs IH]; intros s H; [reflexivity|].
  simpl in H. apply andb_true_iff in H as [He H]. apply negb_true_iff in He.
  unfold run in *. simpl. rewrite (IH _ H). f_equal. now apply step_results.
Qed.

(** C3.  Along every run of fetch and completion steps (any events but the
    two resets) from mounting, the ResultSet is the result of the most
    recently completed fetch cycle, the initial empty one before any has
    completed; a failed cycle has no result and leaves it as it was.  It is
    not the result of the most recently issued cycle: a response that
    completes a cycle writes its result in whatever state it arrives, and
    when the cycle for "a" is answered after the later cycle for "ab", its
    result replaces the newer one while the query is "ab". *)
Theorem last_completed_wins :
  (forall o evs,
      forallb (fun e => negb (resets e)) evs = true ->
      results (run (mount o) evs) = last_completed (mount o) evs no_results)
  /\ (forall s e r, completes s e = Some r -> results (step s e) = r)
  /\ (query (run two_in_flight newer_then_older) = js "ab"
      /\ results (run two_in_flight newer_then_older)
         = {| categories := [cat_a]; products := [] |}).
Proof.
  split; [|split].
  - intros o evs H. rewrite (run_results evs (mount o) H). now destruct o.
  - intros s e r H. now apply completes_step.
  - vm_compute. auto.
Qed.

(** The race as a run from mounting: the last cycle to complete is the one
    for "a". *)
Lemma last_completed_wins_witness :
  results (run (mount true) race) = {| categories := [cat_a]; products := [] |}
  /\ results (run one_in_flight
                [ProductDone 0 (Fulfilled (ok_products [sneaker]));
                 CategoryDone 0 (Fulfilled (ok_categories [shoes]))])
     = {| categories := [shoes]; products := [sneaker] |}.
Proof.
  split.
  - assert (H : forallb (fun e => negb (resets e)) race = true)
      by (vm_compute; reflexivity).
    rewrite (proj1 last_completed_wins true race H). vm_compute. reflexivity.
  - apply (proj1 (proj2 last_completed_wins)
             (step one_in_flight (ProductDone 0 (Fulfilled (ok_products [sneaker]))))
             (CategoryDone 0 (Fulfilled (ok_categories [shoes])))).
    vm_compute. reflexivity.
Defined.

(** ** A query that trims to nothing *)

Lemma change_blank_eq (s : State) (q : jsstring) :
  open s = true -> timer_tracked s -> jseqb q (query s) = false ->
  truthy (trim q) = false ->
  step s (Change q) =
    with_cleanup false
      (setError []
         (setResults no_results (with_timers (next_timer s) [] (setQuery q s)))).
Proof.
  intros Ho Ht Hq Hb. simpl.
  now rewrite Ho, change_tracked_eq, Hq, Hb by exact Ht.
Qed.

(** C4.  When the query becomes a value whose trimmed form is empty, the
    dispatcher issues no lookup at all, then or after any wait (the pending
    timer is cancelled and none is scheduled), and the ResultSet is set at
    once to [{categories: [], products: []}] and the error to the empty
    string, whatever they held before.  This holds in every state in which
    the pending timer, if any, is the one the effect's cleanup cancels, the
    reachable states among them. *)
Theorem blank_query_no_lookup (s : State) (q : jsstring) :
  timer_tracked s -> open s = true -> jseqb q (query s) = false ->
  truthy (trim q) = false ->
  results (step s (Change q)) = no_results
  /\ error (step s (Change q)) = []
  /\ log (step s (Change q)) = log s
  /\ timers (step s (Change q)) = []
  /\ forall n, log (advance n (step s (Change q))) = log s.
Proof.
  intros Ht Ho Hq Hb.
  destruct (change_just_typed s q Ho Ht Hq) as (H1 & Q1 & L1).
  rewrite <- Q1 in Hb.
  repeat split; try (rewrite change_blank_eq by (auto; congruence); reflexivity).
  intros n. destruct (just_typed_blank _ n H1 Hb) as [-> _]. exact L1.
Qed.

(** With results and an error set, the query "sh" is replaced by two
    spaces: both are cleared and nothing is sent, then or later. *)
Lemma blank_query_no_lookup_witness :
  (results results_and_error = {| categories := [shoes]; products := [sneaker] |}
   /\ error results_and_error = js "Search failed.")
  /\ results (step results_and_error (Change (js "  "))) = no_results
  /\ error (step results_and_error (Change (js "  "))) = []
  /\ log (step results_and_error (Change (js "  "))) = log results_and_error
  /\ timers (step results_and_error (Change (js "  "))) = []
  /\ forall n,
       log (advance n (step results_and_error (Change (js "  "))))
       = log results_and_error.
Proof.
  split; [vm_compute; auto|].
  apply (blank_query_no_lookup results_and_error (js "  ")).
  - vm_compute. exact I.
  - vm_compute. reflexivity.
  - vm_compute. reflexivity.
  - reflexivity.
Defined.

(** ** The view *)

(** C9 (amended).  A query that is not empty as a raw string but trims to
    nothing: typing it issues no fetch, then or after any wait, and clears
    the ResultSet; and in every state in which it is the query and the
    overlay is open the presenter still renders the result area, its guard
    testing the untrimmed query.  The area shows the "No results found"
    message quoting the whitespace query exactly when Loading is false, the
    error is empty and the ResultSet is empty.  Right after the keystroke
    the error and the ResultSet are empty and Loading is what it was, which
    this path does not touch: the message is shown when Loading was false,
    the spinner alone when it was true. *)
Theorem whitespace_query_view (s : State) (q : jsstring) :
  timer_tracked s -> open s = true -> jseqb q (query s) = false ->
  truthy q = true -> truthy (trim q) = false ->
  log (step s (Change q)) = log s
  /\ (forall n, log (advance n (step s (Change q))) = log s)
  /\ results (step s (Change q)) = no_results
  /\ render (step s (Change q)) =
       Some {| input_value := q;
               result_area :=
                 Some (if loading s then [Spinner]
                       else [ResultList
                               [NoResults (js "No results found for " ++ dquote
                                             ++ q ++ dquote)]]) |}
  /\ (forall s',
        open s' = true -> query s' = q ->
        exists blocks,
          render s' = Some {| input_value := q; result_area := Some blocks |}
          /\ (blocks = [ResultList
                          [NoResults (js "No results found for " ++ dquote
                                        ++ q ++ dquote)]]
              <-> loading s' = false /\ truthy (error s') = false
                  /\ results s' = no_results)).
Proof.
  intros Ht Ho Hq Hn Hb.
  destruct (change_just_typed s q Ho Ht Hq) as (H1 & Q1 & L1).
  split; [exact L1|]. split.
  { intros n. rewrite <- Q1 in Hb.
    destruct (just_typed_blank _ n H1 Hb) as [-> _]. exact L1. }
  rewrite change_blank_eq by auto.
  split; [reflexivity|]. split.
  { unfold render, result_blocks, result_list. simpl.
    rewrite Ho, Hn. simpl. destruct (loading s); reflexivity. }
  intros s' Ho' Hq'. unfold render, result_blocks, result_list.
  rewrite Ho', Hq', Hn. simpl. eexists. split; [reflexivity|].
  destruct (results s') as [cs ps]. simpl.
  destruct (loading s'), (truthy (error s')); simpl;
    try (split; [discriminate|intros (? & ? & ?); discriminate]).
  destruct cs, ps; simpl; split; auto; try discriminate;
    intros (_ & _ & H); discriminate H.
Qed.

(** A space typed into the freshly opened overlay. *)
Lemma whitespace_query_view_witness :
  render (step (mount true) (Change (js " "))) =
    Some {| input_value := js " ";
            result_area :=
              Some [ResultList
                      [NoResults (js "No results found for " ++ dquote
                                    ++ js " " ++ dquote)]] |}.
Proof.
  exact (proj1 (proj2 (proj2 (proj2 (whitespace_query_view (mount true) (js " ")
           I eq_refl eq_refl eq_refl eq_refl))))).
Defined.

(** C9 as stated fails while Loading is true: "a" is typed and replaced by
    a space before its timer fires; no request was or will be sent, the
    ResultSet is empty, and the area shows the spinner, not the message. *)
Lemma whitespace_query_spinner :
  truthy (js " ") = true /\ truthy (trim (js " ")) = false
  /\ render (run (mount true) [Change (js "a"); Change (js " ")]) =
       Some {| input_value := js " "; result_area := Some [Spinner] |}
  /\ results (run (mount true) [Change (js "a"); Change (js " ")]) = no_results
  /\ log (run (mount true) [Change (js "a"); Change (js " ")]) = [Focus]
  /\ render (advance 5000 (run (mount true) [Change (js "a"); Change (js " ")])) =
       Some {| input_value := js " "; result_area := Some [Spinner] |}.
Proof. vm_compute. auto 10. Qed.

(** C6.  Presenter rendering precedence, in the result area (the overlay
    open, the query not empty) when Loading is false: with an error set,
    only the error message is rendered; with none, the Categories group and
    the Products group are each rendered exactly when non-empty, and when
    both are empty a "no results" message quoting the literal query text. *)
Theorem render_precedence (s : State) :
  open s = true -> truthy (query s) = true -> loading s = false ->
  exists v, render s = Some v /\ input_value v = query s
  /\ (truthy (error s) = true -> result_area v = Some [ErrorText (error s)])
  /\ (truthy (error s) = false ->
      result_area v =
        Some [ResultList
                match categories (results s), products (results s) with
                | [], [] => [NoResults (js "No results found for " ++ dquote
                                        ++ query s ++ dquote)]
                | _ :: _, [] =>
                    [CategoriesGroup (map category_row (categories (results s)))]
                | [], _ :: _ =>
                    [ProductsGroup (map product_row (products (results s)))]
                | _ :: _, _ :: _ =>
                    [CategoriesGroup (map category_row (categories (results s)));
                     ProductsGroup (map product_row (products (results s)))]
                end]).
Proof.
  intros Ho Hq Hl. unfold render. rewrite Ho, Hq. simpl.
  eexists; split; [reflexivity|]. simpl. split; [reflexivity|].
  unfold result_blocks, result_list. rewrite Hl, Hq. simpl.
  split; intros ->; simpl; [reflexivity|].
  destruct (categories (results s)), (products (results s)); reflexivity.
Qed.

(** Query "zzznotfound", both lookups returning empty sequences. *)
Lemma render_precedence_witness :
  exists v,
    render zzz = Some v
    /\ result_area v =
         Some [ResultList
                 [NoResults (js "No results found for " ++ dquote
                               ++ js "zzznotfound" ++ dquote)]].
Proof.
  destruct (render_precedence zzz eq_refl eq_refl eq_refl) as (v & Hv & _ & _ & H).
  exists v. split; [exact Hv|exact (H eq_refl)].
Defined.

(** ** Selecting a row *)

Lemma handleResultClick_log (type : Kind) (slug : jsstring) (s : State) :
  log (handleResultClick type slug s) =
    log s ++ [OnClose; Navigate (route type ++ slug)].
Proof. destruct type; simpl; now rewrite <- app_assoc. Qed.

(** The rows on screen are the rows of the categories and of the products
    in the ResultSet. *)
Lemma rendered_rows_from (s : State) (r : Row) :
  In r (rendered_rows s) ->
  (exists cat, In cat (categories (results s)) /\ r = category_row cat)
  \/ (exists prod, In prod (products (results s)) /\ r = product_row prod).
Proof.
  unfold rendered_rows, render.
  destruct (negb (open s)); [contradiction|]. simpl.
  destruct (truthy (query s)); [|contradiction].
  unfold result_blocks, result_list.
  destruct (loading s); simpl;
    [destruct (truthy (error s)); simpl; contradiction|].
  destruct (truthy (error s)); simpl; [contradiction|].
  rewrite app_nil_r, !flat_map_app, !in_app_iff.
  intros [H|[H|H]].
  - destruct (0 <? List.length (categories (results s))); simpl in H; [|contradiction].
    rewrite app_nil_r in H. apply in_map_iff in H as (cat & <- & Hin). left; eauto.
  - destruct (0 <? List.length (products (results s))); simpl in H; [|contradiction].
    rewrite app_nil_r in H. apply in_map_iff in H as (prod & <- & Hin). right; eauto.
  - destruct ((List.length (categories (results s)) =? 0)
              && (List.length (products (results s)) =? 0) && truthy (query s));
      simpl in H; contradiction.
Qed.

(** C5.  Selecting a result row: the row on screen is that of a category
    or of a product of the ResultSet, and the handler first calls
    [onClose] and then [navigate] with "/category/{slug}" for a category,
    "/product/{slug}" for a product; nothing else is called, and neither
    call is conditional. *)
Theorem result_click (s : State) (i : nat) (r : Row) :
  nth_error (rendered_rows s) i = Some r ->
  ((exists cat, In cat (categories (results s)) /\ r = category_row cat
                /\ log (step s (ClickRow i)) =
                     log s ++ [OnClose; Navigate (js "/category/" ++ cat_slug cat)])
   \/ (exists prod, In prod (products (results s)) /\ r = product_row prod
                /\ log (step s (ClickRow i)) =
                     log s ++ [OnClose; Navigate (js "/product/" ++ prod_slug prod)]))
  /\ (forall type slug,
        log (handleResultClick type slug s) =
          log s ++ [OnClose;
                    Navigate (match type with
                              | category => js "/category/"
                              | product => js "/product/"
                              end ++ slug)]).
Proof.
  intros H. split; [|intros type slug; apply handleResultClick_log].
  simpl. rewrite H.
  destruct (rendered_rows_from s r (nth_error_In _ _ H)) as [(c & Hin & ->)|(p & Hin & ->)];
    [left; exists c|right; exists p]; repeat split; auto;
    apply handleResultClick_log.
Qed.

(** The category "shoes" and the product "sneaker-42" on screen. *)
Lemma result_click_witness :
  log (step shoe_results (ClickRow 0)) =
    log shoe_results ++ [OnClose; Navigate (js "/category/shoes")]
  /\ log (step shoe_results (ClickRow 1)) =
    log shoe_results ++ [OnClose; Navigate (js "/product/sneaker-42")].
Proof.
  split.
  - destruct (result_click shoe_results 0 (category_row shoes) eq_refl)
      as [[(c & _ & E & H)|(p & _ & E & _)] _]; [|discriminate E].
    apply (f_equal (fun r => snd (row_click r))) in E.
    rewrite H. cbn [snd row_click category_row] in E. now rewrite <- E.
  - destruct (result_click shoe_results 1 (product_row sneaker) eq_refl)
      as [[(c & _ & E & _)|(p & _ & E & H)] _]; [discriminate E|].
    apply (f_equal (fun r => snd (row_click r))) in E.
    rewrite H. cbn [snd row_click product_row] in E. now rewrite <- E.
Defined.

(** ** Loading after a cancelled timer *)

Lemma idle_loading_step (s : State) (e : Event) :
  idle_loading s -> starts_no_timer e = true -> idle_loading (step s e).
Proof.
  intros (Hl & Ht & Hi) He. unfold idle_loading.
  destruct e as [b|q|key| |i| |id o|id o]; simpl in *.
  - rewrite set_open_tracked_eq by now apply tracked_no_timer.
    destruct (Bool.eqb b (open s)); auto.
    destruct b; auto. destruct (jseqb [] (query s)); auto.
  - apply negb_true_iff in He. destruct (open s); auto.
    rewrite change_tracked_eq by now apply tracked_no_timer.
    rewrite He. destruct (jseqb q (query s)); auto.
  - destruct (open s); auto. unfold handleEscape.
    destruct (jseqb key (js "Escape")); auto.
  - destruct (open s); auto.
  - destruct (nth_error (rendered_rows s) i) as [r|]; auto.
    destruct (fst (row_click r)); auto.
  - rewrite tick_idle by now rewrite Ht. auto.
  - unfold category_done, find_cycle. rewrite Hi. auto.
  - unfold product_done, find_cycle. rewrite Hi. auto.
Qed.

Lemma idle_loading_run (evs : list Event) :
  forall s, idle_loading s -> forallb starts_no_timer evs = true ->
            idle_loading (run s evs).
Proof.
  induction evs as [|e evs IH]; intros s H He; [exact H|].
  simpl in He. apply andb_true_iff in He as [He Hes].
  unfold run in *. simpl. apply IH; auto. now apply idle_loading_step.
Qed.

(** Neither reset touches Loading. *)
Lemma loading_not_reset (s : State) :
  loading (step s (SetOpen false)) = loading s
  /\ forall q, truthy (trim q) = false -> loading (step s (Change q)) = loading s.
Proof.
  split.
  - simpl. destruct (set_open_frame false s) as [->|[[E _]|[_ (nt & ts & d & c & ->)]]];
      [reflexivity|discriminate|reflexivity].
  - intros q Hb. simpl. destruct (open s); auto.
    destruct (change_frame q s) as [->|(nt & ts & d & c & ->)]; auto.
    now rewrite Hb.
Qed.

(** C10.  Loading is reset on no path but the cleanup of a fetch attempt:
    neither closing the overlay nor a query that trims to nothing changes
    it.  So when a query with something in it sets Loading to true and, less
    than 350 units later, before the timer fires, the query is cleared or the
    overlay is closed, with no request in flight, then Loading is true, no
    timer is pending and no request is in flight, and this stays so through
    every further event other than a keystroke that leaves something to
    search for. *)
Theorem loading_stays_true (s : State) (q : jsstring) (d : nat) (e : Event)
    (evs : list Event) :
  reachable s -> open s = true -> inflight s = [] ->
  jseqb q (query s) = false -> truthy (trim q) = true -> d < 350 ->
  (e = SetOpen false \/ exists q', e = Change q' /\ truthy (trim q') = false) ->
  forallb starts_no_timer evs = true ->
  loading (step s (Change q)) = true
  /\ loading (run (step (advance d (step s (Change q))) e) evs) = true
  /\ timers (run (step (advance d (step s (Change q))) e) evs) = []
  /\ inflight (run (step (advance d (step s (Change q))) e) evs) = []
  /\ (forall s0, loading (step s0 (SetOpen false)) = loading s0)
  /\ (forall s0 q', truthy (trim q') = false ->
                    loading (step s0 (Change q')) = loading s0).
Proof.
  intros Hr Ho Hi Hq Hb Hd He Hevs.
  pose proof (inv_tracked s (reachable_inv s Hr)) as Ht.
  destruct (change_just_typed s q Ho Ht Hq) as (H1 & Q1 & L1).
  assert (E1 : step s (Change q) =
               with_cleanup true
                 (with_debounceTimeout (Some (next_timer s))
                    (with_timers (S (next_timer s))
                       [{| timer_id := next_timer s; timer_due := now s + 350;
                           timer_query := q |}]
                       (setError [] (setLoading true (setQuery q s)))))).
  { simpl. rewrite Ho, (change_tracked_eq q s Ht), Hq, Hb. reflexivity. }
  split; [now rewrite E1|].
  assert (K : idle_loading (step (advance d (step s (Change q))) e)).
  { rewrite (just_typed_wait _ d H1 Hd).
    remember (with_now (now (step s (Change q)) + d) (step s (Change q))) as s1 eqn:Es1.
    assert (Ht' : timer_tracked s1) by (subst s1; apply H1).
    assert (Ho' : open s1 = true) by (subst s1; apply H1).
    destruct He as [->|(q' & -> & Hb')]; cbn [step].
    - rewrite (set_open_tracked_eq false s1 Ht'), Ho'. subst s1. rewrite E1. simpl.
      destruct (jseqb [] q) eqn:Eq.
      + apply jseqb_eq in Eq. subst q. discriminate.
      + repeat split; auto.
    - rewrite Ho', (change_tracked_eq q' s1 Ht'), Hb'. subst s1. rewrite E1. simpl.
      destruct (jseqb q' q) eqn:Eq.
      + apply jseqb_eq in Eq. congruence.
      + repeat split; auto. }
  destruct (idle_loading_run evs _ K Hevs) as (? & ? & ?).
  repeat split; auto; apply loading_not_reset.
Qed.

(** "a" is typed and deleted 100 units later; then time passes, the overlay
    is closed and opened again, a space is typed, and more time passes.  Or
    the overlay is closed 349 units after "a" was typed, and time passes. *)
Lemma loading_stays_true_witness :
  (loading (run (step (advance 100 (step (mount true) (Change (js "a")))) (Change []))
              (repeat Tick 1000
               ++ [SetOpen false; SetOpen true; Change (js " "); KeyDown (js "Escape")]
               ++ repeat Tick 1000)) = true
   /\ timers (run (step (advance 100 (step (mount true) (Change (js "a")))) (Change []))
              (repeat Tick 1000
               ++ [SetOpen false; SetOpen true; Change (js " "); KeyDown (js "Escape")]
               ++ repeat Tick 1000)) = []
   /\ inflight (run (step (advance 100 (step (mount true) (Change (js "a")))) (Change []))
              (repeat Tick 1000
               ++ [SetOpen false; SetOpen true; Change (js " "); KeyDown (js "Escape")]
               ++ repeat Tick 1000)) = [])
  /\ loading (run (step (advance 349 (step (mount true) (Change (js "a"))))
                     (SetOpen false))
                (repeat Tick 1000)) = true.
Proof.
  assert (Hd : 100 < 350) by lia.
  assert (Hd' : 349 < 350) by lia.
  assert (Hevs : forallb starts_no_timer
                   (repeat Tick 1000
                    ++ [SetOpen false; SetOpen true; Change (js " ");
                        KeyDown (js "Escape")]
                    ++ repeat Tick 1000) = true) by (vm_compute; reflexivity).
  assert (Hevs' : forallb starts_no_timer (repeat Tick 1000) = true)
    by (vm_compute; reflexivity).
  split.
  - destruct (loading_stays_true (mount true) (js "a") 100 (Change [])
                (repeat Tick 1000
                 ++ [SetOpen false; SetOpen true; Change (js " "); KeyDown (js "Escape")]
                 ++ repeat Tick 1000)
                (reachable_mount true) eq_refl eq_refl eq_refl eq_refl Hd
                (or_intror (ex_intro _ [] (conj eq_refl eq_refl))) Hevs)
      as (_ & Hl & Ht & Hi & _).
    repeat split; assumption.
  - exact (proj1 (proj2 (loading_stays_true (mount true) (js "a") 349 (SetOpen false)
                           (repeat Tick 1000)
                           (reachable_mount true) eq_refl eq_refl eq_refl eq_refl Hd'
                           (or_introl eq_refl) Hevs'))).
Defined.

(** ** The requests *)

Lemma same_requests_paired (s s' : State) :
  same_requests s s' -> paired s -> paired s'.
Proof. intros [E1 E2] (es & H1 & H2 & H3). exists es. now rewrite E1, E2. Qed.

Lemma fetch_start_paired (q : jsstring) (s : State) :
  paired s -> paired (fetch_start q s).
Proof.
  intros (es & H1 & H2 & H3). unfold fetch_start.
  destruct (encodeURIComponent q) as [e|] eqn:E.
  - exists (es ++ [e]). simpl. repeat split.
    + rewrite !gets_app, H1, flat_map_app. simpl. now rewrite <- app_assoc.
    + rewrite length_app, H2. simpl. lia.
    + apply Forall_app. split; auto. constructor; [now exists q|constructor].
  - exists es. auto.
Qed.

Lemma fire_all_paired (due : list Timer) (s : State) :
  paired s -> paired (fold_left (fun s x => fetch_start (timer_query x) s) due s).
Proof.
  revert s; induction due as [|x due IH]; intros s H; simpl; auto.
  apply IH. now apply fetch_start_paired.
Qed.

Lemma step_paired (s : State) (e : Event) : paired s -> paired (step s e).
Proof.
  intros H. destruct e as [b|q|key| |i| |id o|id o]; simpl.
  - eapply same_requests_paired; [|exact H].
    destruct (set_open_frame b s) as [->|[[_ ->]|[_ (nt & ts & d & c & ->)]]];
      no_request.
  - destruct (open s); auto. eapply same_requests_paired; [|exact H].
    destruct (change_frame q s) as [->|(nt & ts & d & c & ->)]; split; auto;
      destruct (truthy (trim q)); reflexivity.
  - destruct (open s); auto. eapply same_requests_paired; [|exact H].
    unfold handleEscape. destruct (jseqb key (js "Escape")); no_request.
  - destruct (open s); auto. eapply same_requests_paired; [|exact H]. no_request.
  - destruct (nth_error (rendered_rows s) i) as [r|]; auto.
    eapply same_requests_paired; [|exact H].
    split; [|now destruct (fst (row_click r))].
    rewrite handleResultClick_log, gets_app. simpl. apply app_nil_r.
  - unfold tick. apply fire_all_paired.
    eapply same_requests_paired; [|exact H]. split; reflexivity.
  - eapply same_requests_paired; [|exact H]. unfold category_done.
    destruct (find_cycle id s) as [c|]; [|split; reflexivity].
    destruct (cat_res c); [split; reflexivity|].
    destruct o as [v|]; [|split; reflexivity].
    destruct (prod_res c) as [p|]; [|split; reflexivity].
    rewrite fetch_fulfilled_eq. destruct (cycle_result v p); split; reflexivity.
  - eapply same_requests_paired; [|exact H]. unfold product_done.
    destruct (find_cycle id s) as [c|]; [|split; reflexivity].
    destruct (prod_res c); [split; reflexivity|].
    destruct o as [v|]; [|split; reflexivity].
    destruct (cat_res c) as [p|]; [|split; reflexivity].
    rewrite fetch_fulfilled_eq. destruct (cycle_result p v); split; reflexivity.
Qed.

Lemma reachable_paired (s : State) : reachable s -> paired s.
Proof.
  induction 1 as [o|s e _ IH]; [|now apply step_paired].
  exists []. destruct o; repeat split; constructor.
Qed.

Lemma read_in_order (s : State) (id : nat) (cs : list Category) (ps : list Product) :
  find_cycle id s = Some {| cycle_id := id; cat_res := None; prod_res := None |} ->
  results (run s [CategoryDone id (Fulfilled (ok_categories cs));
                  ProductDone id (Fulfilled (ok_products ps))])
  = {| categories := cs; products := ps |}.
Proof.
  intros H. unfold run. cbn [fold_left step].
  unfold category_done at 1. rewrite H. cbn [cat_res prod_res].
  unfold product_done.
  rewrite (find_cycle_update id s _
             {| cycle_id := id; cat_res := Some (ok_categories cs); prod_res := None |}
             H eq_refl).
  reflexivity.
Qed.

Lemma read_out_of_order (s : State) (id : nat) (cs : list Category)
    (ps : list Product) :
  find_cycle id s = Some {| cycle_id := id; cat_res := None; prod_res := None |} ->
  results (run s [ProductDone id (Fulfilled (ok_products ps));
                  CategoryDone id (Fulfilled (ok_categories cs))])
  = {| categories := cs; products := ps |}.
Proof.
  intros H. unfold run. cbn [fold_left step].
  unfold product_done at 1. rewrite H. cbn [cat_res prod_res].
  unfold category_done.
  rewrite (find_cycle_update id s _
             {| cycle_id := id; cat_res := None; prod_res := Some (ok_products ps) |}
             H eq_refl).
  reflexivity.
Qed.

(** When the pending timer comes due, the callback sends the pair for the
    current query. *)
Lemma tick_lookups (s : State) (t : Timer) (e : jsstring) :
  reachable s -> In t (timers s) -> timer_due t <= S (now s) ->
  encodeURIComponent (query s) = Some e ->
  log (tick s) = log s ++ lookups e.
Proof.
  intros Hr Hin Hdue He.
  destruct (reachable_timer s t Hr Hin) as (Ht & Hq & _).
  rewrite (tick_fire s t Ht) by (unfold is_due; now apply Nat.leb_le).
  now rewrite fetch_start_log, Hq, He.
Qed.

(** C8.  Wire shape of the two lookups.  The requests sent up to any
    reachable state are, cycle by cycle and in this order, GET
    /api/category/search?q={query} and GET
    /api/product/search?q={query}&limit=10, the query URL-encoded, one such
    pair for each fetch cycle started and nothing else; the pair is sent when
    the debounce timer comes due, for the query then current; and a cycle
    whose lookups answer with [{ data: cs }] and with
    [{ data: { products: ps } }], in either order, makes the ResultSet
    [{categories: cs, products: ps}]. *)
Theorem wire_shape (s : State) :
  reachable s ->
  (exists es,
      gets (log s) =
        flat_map (fun e => [js "/api/category/search?q=" ++ e;
                            js "/api/product/search?q=" ++ e ++ js "&limit=10"]) es
      /\ List.length es = next_cycle s
      /\ Forall encodable es)
  /\ (forall t e,
        In t (timers s) -> timer_due t <= S (now s) ->
        encodeURIComponent (query s) = Some e ->
        log (step s Tick) =
          log s ++ [Get (js "/api/category/search?q=" ++ e);
                    Get (js "/api/product/search?q=" ++ e ++ js "&limit=10")])
  /\ (forall id cs ps,
        find_cycle id s
          = Some {| cycle_id := id; cat_res := None; prod_res := None |} ->
        results (run s [CategoryDone id (Fulfilled (ok_categories cs));
                        ProductDone id (Fulfilled (ok_products ps))])
          = {| categories := cs; products := ps |}
        /\ results (run s [ProductDone id (Fulfilled (ok_products ps));
                           CategoryDone id (Fulfilled (ok_categories cs))])
          = {| categories := cs; products := ps |}).
Proof.
  intros Hr. split; [exact (reachable_paired s Hr)|]. split.
  - intros t e Hin Hdue He. exact (tick_lookups s t e Hr Hin Hdue He).
  - intros id cs ps H. split; [now apply read_in_order|now apply read_out_of_order].
Qed.

(** "a b" typed 349 units ago: the next tick sends the two requests, the
    space percent-encoded; their answers become the ResultSet. *)
Lemma wire_shape_witness :
  log (step about_to_fire Tick) =
    log about_to_fire
    ++ [Get (js "/api/category/search?q=" ++ js "a%20b");
        Get (js "/api/product/search?q=" ++ js "a%20b" ++ js "&limit=10")]
  /\ results (run fired
                [CategoryDone 0 (Fulfilled (ok_categories [shoes]));
                 ProductDone 0 (Fulfilled (ok_products [sneaker]))])
     = {| categories := [shoes]; products := [sneaker] |}.
Proof.
  assert (Hr : reachable about_to_fire)
    by (apply reachable_advance; repeat constructor).
  split.
  - apply (proj1 (proj2 (wire_shape about_to_fire Hr))
             {| timer_id := 1; timer_due := 350; timer_query := js "a b" |}
             (js "a%20b")).
    + vm_compute; auto.
    + vm_compute; auto.
    + vm_compute; reflexivity.
  - apply (proj2 (proj2 (wire_shape fired (reachable_step _ Tick Hr)))
             0 [shoes] [sneaker]).
    vm_compute; reflexivity.
Defined.

(** * Further properties *)

(** ** Which queries are searched for *)

Lemma trimStart_nil_iff (q : jsstring) :
  trimStart q = [] <-> forallb is_whitespace q = true.
Proof.
  induction q as [|c q IH]; simpl; [tauto|].
  destruct (is_whitespace c); simpl; [exact IH|]. split; discriminate.
Qed.

Lemma trimStart_head (q : jsstring) :
  match trimStart q with
  | [] => True
  | c :: r => is_whitespace c = false /\ In c q
  end.
Proof.
  induction q as [|c q IH]; simpl; auto.
  destruct (is_whitespace c) eqn:E; simpl; auto.
  destruct (trimStart q); intuition.
Qed.

(** [!query.trim()] holds exactly for the strings made of white space. *)
Lemma trim_blank_iff (q : jsstring) :
  truthy (trim q) = false <-> forallb is_whitespace q = true.
Proof.
  unfold trim, trimEnd. split.
  - intros H. apply trimStart_nil_iff.
    pose proof (trimStart_head q) as Hh.
    destruct (trimStart q) as [|c r] eqn:E; [reflexivity|].
    destruct Hh as [Hc _]. exfalso.
    assert (Hne : trimStart (rev (c :: r)) <> []).
    { intros Hnil. apply trimStart_nil_iff in Hnil.
      rewrite forallb_forall in Hnil.
      assert (Hin : In c (rev (c :: r))) by (apply in_rev; rewrite rev_involutive; now left).
      specialize (Hnil c Hin). congruence. }
    destruct (trimStart (rev (c :: r))) as [|x l] eqn:E2; [congruence|].
    simpl in H. destruct (rev l); discriminate.
  - intros H. apply trimStart_nil_iff in H. now rewrite H.
Qed.

Lemma trim_truthy (q : jsstring) : truthy (trim q) = true -> truthy q = true.
Proof. destruct q; [discriminate|reflexivity]. Qed.

(** X1.  The search effect starts a timer exactly for the values that hold
    a character other than white space (the ECMAScript set, U+00A0 and
    U+FEFF included): a value made of white space only cancels what was
    pending, schedules nothing and leaves Loading as it was; any other value
    leaves exactly one timer, for that value, due 350 units later, sets
    Loading and keeps the ResultSet. *)
Theorem whitespace_decides_search (s : State) (q : jsstring) :
  timer_tracked s -> open s = true -> jseqb q (query s) = false ->
  (forallb is_whitespace q = true ->
     timers (step s (Change q)) = []
     /\ loading (step s (Change q)) = loading s
     /\ results (step s (Change q)) = no_results)
  /\ (forallb is_whitespace q = false ->
     timers (step s (Change q)) =
       [{| timer_id := next_timer s; timer_due := now s + 350; timer_query := q |}]
     /\ loading (step s (Change q)) = true
     /\ results (step s (Change q)) = results s).
Proof.
  intros Ht Ho Hq. simpl. rewrite Ho, change_tracked_eq, Hq by exact Ht.
  split; intros Hw.
  - apply trim_blank_iff in Hw. rewrite Hw. auto.
  - destruct (truthy (trim q)) eqn:E; [auto|].
    apply trim_blank_iff in E. congruence.
Qed.

(** A no-break space alone schedules nothing; "a" between two of them
    does. *)
Lemma whitespace_decides_search_witness :
  timers (step (mount true) (Change [0xA0%N])) = []
  /\ timers (step (mount true) (Change [0xA0; 0x61; 0xA0]%N)) =
       [{| timer_id := 1; timer_due := 350; timer_query := [0xA0; 0x61; 0xA0]%N |}].
Proof.
  split.
  - exact (proj1 (proj1 (whitespace_decides_search (mount true) [0xA0%N]
             I eq_refl eq_refl) eq_refl)).
  - exact (proj1 (proj2 (whitespace_decides_search (mount true) [0xA0; 0x61; 0xA0]%N
             I eq_refl eq_refl) eq_refl)).
Defined.

(** ** What goes into the URL *)

Section UrlEncoding.

Local Open Scope N_scope.

Lemma hex_digit_unreserved (n : N) : (n < 16) -> unreserved (hex_digit n) = true.
Proof.
  intros H.
  assert (A : forallb (fun k => unreserved (hex_digit (N.of_nat k))) (seq 0 16) = true)
    by (vm_compute; reflexivity).
  rewrite forallb_forall in A.
  rewrite <- (N2Nat.id n). apply A. apply in_seq. lia.
Qed.

Lemma percent_safe (b : N) : (b < 256) -> Forall url_safe (percent b).
Proof.
  intros H. unfold percent.
  apply Forall_cons; [now right|].
  apply Forall_cons;
    [left; apply hex_digit_unreserved; apply N.Div0.div_lt_upper_bound; lia|].
  apply Forall_cons; [left; apply hex_digit_unreserved; apply N.mod_lt; lia|].
  constructor.
Qed.

Lemma utf8_bytes (cp : N) :
  (cp < 0x110000) -> Forall (fun b => (b < 256)) (utf8 cp).
Proof.
  intros H. unfold utf8.
  assert (M : forall a, (a mod 64 < 64)) by (intros a; apply N.mod_lt; lia).
  destruct (cp <? 0x80) eqn:E1; [apply N.ltb_lt in E1; repeat constructor; lia|].
  destruct (cp <? 0x800) eqn:E2.
  { apply N.ltb_lt in E2.
    assert (cp / 64 < 32) by (apply N.Div0.div_lt_upper_bound; lia).
    pose proof (M cp). repeat constructor; lia. }
  destruct (cp <? 0x10000) eqn:E3.
  { apply N.ltb_lt in E3.
    assert (cp / 4096 < 16) by (apply N.Div0.div_lt_upper_bound; lia).
    pose proof (M cp). pose proof (M (cp / 64)). repeat constructor; lia. }
  assert (cp / 262144 < 8) by (apply N.Div0.div_lt_upper_bound; lia).
  pose proof (M cp). pose proof (M (cp / 64)). pose proof (M (cp / 4096)).
  repeat constructor; lia.
Qed.

Lemma encode_point_safe (cp : N) :
  (cp < 0x110000) -> Forall url_safe (encode_point cp).
Proof.
  intros H. unfold encode_point. destruct (unreserved cp) eqn:E.
  - apply Forall_cons; [now left|constructor].
  - pose proof (utf8_bytes cp H) as Hb.
    induction Hb as [|b l Hb _ IH]; cbn [flat_map]; [constructor|].
    apply Forall_app. split; [now apply percent_safe|exact IH].
Qed.

Lemma encodeURIComponent_cons (c : N) (r : jsstring) :
  encodeURIComponent (c :: r) =
    if is_low_surrogate c then None
    else if is_high_surrogate c then
      match r with
      | c2 :: r2 =>
          if is_low_surrogate c2 then
            match encodeURIComponent r2 with
            | Some e =>
                Some (encode_point
                        (0x10000 + (c - 0xD800) * 0x400 + (c2 - 0xDC00)) ++ e)
            | None => None
            end
          else None
      | [] => None
      end
    else
      match encodeURIComponent r with
      | Some e => Some (encode_point c ++ e)
      | None => None
      end.
Proof. reflexivity. Qed.

Lemma encodeURIComponent_safe (n : nat) :
  forall q e, (List.length q <= n)%nat -> code_units q ->
              encodeURIComponent q = Some e -> Forall url_safe e.
Proof.
  induction n as [|n IH]; intros q e Hn Hq He.
  - destruct q; [|simpl in Hn; lia]. vm_compute in He. injection He as <-. constructor.
  - destruct q as [|c r]. { vm_compute in He. injection He as <-. constructor. }
    inversion Hq as [|? ? Hc Hr]; subst. cbv beta in Hc.
    rewrite encodeURIComponent_cons in He.
    destruct (is_low_surrogate c) eqn:El; [discriminate|].
    destruct (is_high_surrogate c) eqn:Eh.
    + destruct r as [|c2 r2]; [discriminate|].
      destruct (is_low_surrogate c2) eqn:El2; [|discriminate].
      destruct (encodeURIComponent r2) as [e2|] eqn:E2; [|discriminate].
      inversion Hr as [|? ? Hc2 Hr2]; subst.
      assert (Hcp : (0x10000 + (c - 0xD800) * 0x400 + (c2 - 0xDC00) < 0x110000)).
      { unfold is_high_surrogate in Eh. unfold is_low_surrogate in El2.
        apply andb_true_iff in Eh as [A B]. apply andb_true_iff in El2 as [C D].
        apply N.leb_le in A, B, C, D. lia. }
      revert He Hcp.
      generalize (0x10000 + (c - 0xD800) * 0x400 + (c2 - 0xDC00)).
      intros cp He Hcp. injection He as <-.
      apply Forall_app. split.
      * now apply encode_point_safe.
      * apply (IH r2 e2); auto. simpl in Hn. lia.
    + destruct (encodeURIComponent r) as [e1|] eqn:E1; [|discriminate].
      injection He as <-. apply Forall_app. split.
      * apply encode_point_safe. lia.
      * apply (IH r e1); auto. simpl in Hn. lia.
Qed.

Lemma in_safe_not (c : N) (e : jsstring) :
  Forall url_safe e -> unreserved c = false -> c <> 0x25 -> ~ In c e.
Proof.
  intros H Hu Hp Hin. rewrite Forall_forall in H.
  destruct (H c Hin); congruence.
Qed.

(** X2.  What is put after [q=] in the two URLs holds only unreserved
    characters and percent signs: whatever the query, no ampersand, equals
    sign, question mark, hash, slash or space reaches the URL, so the query
    cannot end the parameter or add one. *)
Theorem encoded_query_safe (q e : jsstring) :
  code_units q -> encodeURIComponent q = Some e ->
  Forall (fun c => unreserved c = true \/ c = 0x25) e
  /\ ~ In 0x26 e /\ ~ In 0x3D e /\ ~ In 0x3F e /\ ~ In 0x23 e
  /\ ~ In 0x2F e /\ ~ In 0x20 e
  /\ gets (lookups e) =
       [js "/api/category/search?q=" ++ e;
        js "/api/product/search?q=" ++ e ++ js "&limit=10"].
Proof.
  intros Hq He.
  assert (H : Forall url_safe e)
    by exact (encodeURIComponent_safe (List.length q) q e (le_n _) Hq He).
  split; [exact H|].
  repeat split; try (apply in_safe_not; auto; discriminate).
Qed.

(** "a&limit=99#" is sent as one value. *)
Lemma encoded_query_safe_witness :
  encodeURIComponent (js "a&limit=99#") = Some (js "a%26limit%3D99%23")
  /\ ~ In 0x26 (js "a%26limit%3D99%23").
Proof.
  assert (Hq : code_units (js "a&limit=99#"))
    by (repeat (apply Forall_cons; [reflexivity|]); constructor).
  split; [reflexivity|].
  exact (proj1 (proj2 (encoded_query_safe (js "a&limit=99#") (js "a%26limit%3D99%23")
                         Hq eq_refl))).
Defined.

Lemma unreserved_not_surrogate (c : N) :
  unreserved c = true -> is_low_surrogate c = false /\ is_high_surrogate c = false.
Proof.
  intros H. unfold is_low_surrogate, is_high_surrogate.
  destruct (0xD800 <=? c) eqn:E.
  - apply N.leb_le in E. exfalso. unfold unreserved in H.
    repeat (apply orb_true_iff in H; destruct H as [H|H]);
      try (apply andb_true_iff in H as [_ H]; apply N.leb_le in H; lia);
      try (apply N.eqb_eq in H; lia).
  - split; [|reflexivity].
    destruct (0xDC00 <=? c) eqn:E2; [|reflexivity].
    apply N.leb_le in E2. apply N.leb_gt in E. lia.
Qed.

End UrlEncoding.

(** X3.  A query made only of letters, digits and the marks
    [- _ . ! ~ * ' ( )] goes into the URL as it is. *)
Theorem plain_query_verbatim (q : jsstring) :
  forallb unreserved q = true ->
  encodeURIComponent q = Some q
  /\ cycle_calls q =
       match q with
       | [] => []
       | _ :: _ => [Get (js "/api/category/search?q=" ++ q);
                    Get (js "/api/product/search?q=" ++ q ++ js "&limit=10")]
       end.
Proof.
  intros H.
  assert (E : encodeURIComponent q = Some q).
  { induction q as [|c q IH]; [reflexivity|]. simpl in H.
    apply andb_true_iff in H as [Hc Hq]. rewrite encodeURIComponent_cons.
    destruct (unreserved_not_surrogate c Hc) as [-> ->].
    rewrite (IH Hq). unfold encode_point. now rewrite Hc. }
  split; [exact E|]. unfold cycle_calls. rewrite E.
  destruct q as [|c q]; [reflexivity|].
  assert (Hb : truthy (trim (c :: q)) = true).
  { destruct (truthy (trim (c :: q))) eqn:Et; [reflexivity|].
    apply trim_blank_iff in Et. simpl in Et, H.
    apply andb_true_iff in Et as [Et _]. apply andb_true_iff in H as [H _].
    exfalso. revert Et H. unfold is_whitespace, unreserved.
    intros Et H.
    repeat (apply orb_true_iff in Et; destruct Et as [Et|Et]);
      try (apply andb_true_iff in Et as [Et1 Et2]; apply N.leb_le in Et1, Et2);
      try apply N.eqb_eq in Et; subst; try discriminate H.
    repeat (apply orb_true_iff in H; destruct H as [H|H]);
      try (apply andb_true_iff in H as [_ H]; apply N.leb_le in H; lia);
      try (apply N.eqb_eq in H; lia). }
  now rewrite Hb.
Qed.

Lemma plain_query_verbatim_witness :
  encodeURIComponent (js "sneaker-42") = Some (js "sneaker-42").
Proof. exact (proj1 (plain_query_verbatim (js "sneaker-42") eq_refl)). Defined.

(** ** Typing slowly *)

Lemma fetch_start_open_query (q : jsstring) (s : State) :
  open (fetch_start q s) = open s /\ query (fetch_start q s) = query s.
Proof. destruct (fetch_start_timing q s) as (_ & _ & _ & ? & _ & ? & _). auto. Qed.

(** After a pause of 350 units or more nothing is pending, and the callback
    of the timer that was has run. *)
Lemma just_typed_after_pause (s : State) (p : nat) :
  just_typed s -> 350 <= p ->
  open (advance p s) = true /\ timers (advance p s) = []
  /\ query (advance p s) = query s
  /\ log (advance p s) = log s ++ cycle_calls (query s).
Proof.
  intros H Hp. unfold cycle_calls.
  destruct (truthy (trim (query s))) eqn:Hb.
  - destruct (just_typed_pause s p H Hb Hp) as [L T].
    destruct H as (Ho & Ht & Hf). unfold timer_tracked in Ht.
    destruct (timers s) as [|t [|t' l]] eqn:E; try tauto; [congruence|].
    destruct Hf as (Hdue & Hq & _).
    repeat split; auto; rewrite (advance_fire p s t E) by lia; simpl;
      now rewrite (proj1 (fetch_start_open_query _ _))
        || now rewrite (proj2 (fetch_start_open_query _ _)).
  - destruct (just_typed_blank s p H Hb) as [L T].
    destruct H as (Ho & _ & Hf).
    destruct (timers s) as [|t l] eqn:E; [|destruct Hf as (_ & _ & Hf); congruence].
    rewrite app_nil_r. repeat split; auto;
      rewrite advance_idle by (now rewrite E); auto.
Qed.

Lemma slow_keystroke (s : State) (d : nat) (q : jsstring) :
  just_typed s -> 350 <= d -> jseqb q (query s) = false ->
  just_typed (keystroke s (d, q))
  /\ query (keystroke s (d, q)) = q
  /\ log (keystroke s (d, q)) = log s ++ cycle_calls (query s).
Proof.
  intros H Hd Hq. unfold keystroke. simpl fst; simpl snd.
  destruct (just_typed_after_pause s d H Hd) as (Ho & Ht & Q & L).
  rewrite <- Q in Hq.
  destruct (change_just_typed (advance d s) q Ho (tracked_no_timer _ Ht) Hq)
    as (H1 & Q1 & L1).
  repeat split; try apply H1; auto. now rewrite L1.
Qed.

Lemma slow_keys (ks : list (nat * jsstring)) :
  forall s,
    just_typed s ->
    mutations (query s) (map snd ks) = true ->
    forallb (fun k => 350 <=? fst k) ks = true ->
    just_typed (type_keys s ks)
    /\ log (type_keys s ks) ++ cycle_calls (query (type_keys s ks))
       = log s ++ flat_map cycle_calls (query s :: map snd ks).
Proof.
  induction ks as [|[d q] ks IH]; intros s H Hm Hd.
  - simpl. rewrite app_nil_r. auto.
  - simpl in Hm.
    change ((350 <=? d) && forallb (fun k => 350 <=? fst k) ks = true) in Hd.
    apply andb_true_iff in Hm as [Hq Hm]. apply negb_true_iff in Hq.
    apply andb_true_iff in Hd as [Hd Hds]. apply Nat.leb_le in Hd.
    destruct (slow_keystroke s d q H Hd Hq) as (H1 & Q1 & L1).
    unfold type_keys in *. simpl fold_left.
    destruct (IH (keystroke s (d, q)) H1) as (H2 & L2); auto.
    { now rewrite Q1. }
    split; [exact H2|]. rewrite L2, L1, Q1. cbn [map snd flat_map].
    now rewrite <- app_assoc.
Qed.

(** X4.  Values typed 350 units or more apart are each searched for: when
    every keystroke changes the value and comes no sooner than 350 units
    after the one before, then after a last pause of 350 units the requests
    sent are, in order, the pair of lookups of each value that holds more
    than white space and can be URL-encoded, and nothing for the others. *)
Theorem one_cycle_per_settled_value (s : State) (q0 : jsstring)
    (ks : list (nat * jsstring)) (p : nat) :
  reachable s -> open s = true ->
  mutations (query s) (q0 :: map snd ks) = true ->
  forallb (fun k => 350 <=? fst k) ks = true ->
  350 <= p ->
  log (advance p (type_keys (step s (Change q0)) ks))
  = log s ++ flat_map cycle_calls (q0 :: map snd ks).
Proof.
  intros Hr Ho Hm Hd Hp.
  simpl in Hm. apply andb_true_iff in Hm as [Hq Hm]. apply negb_true_iff in Hq.
  destruct (change_just_typed s q0 Ho (inv_tracked s (reachable_inv s Hr)) Hq)
    as (H1 & Q1 & L1).
  destruct (slow_keys ks (step s (Change q0)) H1) as (H2 & L2); auto.
  { now rewrite Q1. }
  destruct (just_typed_after_pause _ p H2 Hp) as (_ & _ & _ & L3).
  now rewrite L3, L2, L1, Q1.
Qed.

(** "a", then "ab" 350 units later, a space 400 after that, "abc" 350
    after that: three pairs, none for the space. *)
Lemma one_cycle_per_settled_value_witness :
  log (advance 350
         (type_keys (step (mount true) (Change (js "a")))
            [(350, js "ab"); (400, js " "); (350, js "abc")]))
  = [Focus]
    ++ lookups (js "a") ++ lookups (js "ab") ++ [] ++ lookups (js "abc") ++ [].
Proof.
  exact (one_cycle_per_settled_value (mount true) (js "a")
           [(350, js "ab"); (400, js " "); (350, js "abc")] 350
           (reachable_mount true) eq_refl eq_refl eq_refl (le_n 350)).
Defined.

(** ** More on the view *)

(** X5.  The component renders nothing exactly while closed; open with an
    empty query it renders the input and no result area; open with a query
    the result area holds exactly one block: the spinner while Loading,
    whatever the error and the ResultSet are; else the error text when
    there is one; else the result list, which is never empty. *)
Theorem one_block (s : State) :
  (render s = None <-> open s = false)
  /\ (open s = true -> truthy (query s) = false ->
      render s = Some {| input_value := query s; result_area := None |})
  /\ (open s = true -> truthy (query s) = true ->
      exists b,
        render s = Some {| input_value := query s; result_area := Some [b] |}
        /\ (loading s = true -> b = Spinner)
        /\ (loading s = false -> truthy (error s) = true -> b = ErrorText (error s))
        /\ (loading s = false -> truthy (error s) = false ->
            exists g gs, b = ResultList (g :: gs))).
Proof.
  unfold render. split; [|split].
  - destruct (open s); simpl; split; congruence.
  - intros -> ->. reflexivity.
  - intros -> Hq. rewrite Hq. simpl. unfold result_blocks, result_list. rewrite Hq.
    destruct (loading s), (truthy (error s)); simpl;
      eexists; (split; [reflexivity|]); repeat split; try congruence.
    intros _ _.
    destruct (categories (results s)), (products (results s)); simpl; eauto.
Qed.

(** With the query "ab", an error and the category lookup of the newer
    cycle answered: the error text alone. *)
Lemma one_block_witness :
  exists b,
    render older_failed =
      Some {| input_value := query older_failed; result_area := Some [b] |}
    /\ b = ErrorText (error older_failed).
Proof.
  assert (Ho : open older_failed = true) by (vm_compute; reflexivity).
  assert (Hq : truthy (query older_failed) = true) by (vm_compute; reflexivity).
  assert (Hl : loading older_failed = false) by (vm_compute; reflexivity).
  assert (He : truthy (error older_failed) = true) by (vm_compute; reflexivity).
  destruct (proj2 (proj2 (one_block older_failed)) Ho Hq) as (b & Hr & _ & Hb & _).
  exists b. split; [exact Hr|exact (Hb Hl He)].
Defined.

Lemma rows_on_screen (s : State) :
  rendered_rows s =
    if visible s
    then map category_row (categories (results s))
         ++ map product_row (products (results s))
    else [].
Proof.
  unfold rendered_rows, render, visible.
  destruct (open s); simpl; [|reflexivity].
  destruct (truthy (query s)) eqn:Hq; simpl; [|reflexivity].
  unfold result_blocks, result_list. rewrite Hq.
  destruct (loading s); simpl; [now destruct (truthy (error s))|].
  destruct (truthy (error s)); simpl; [reflexivity|].
  destruct (categories (results s)), (products (results s)); simpl;
    rewrite ?app_nil_r; reflexivity.
Qed.

(** X6.  Which row goes where.  While the result list is on screen (open,
    a query, not Loading, no error) the rows are the categories in order
    and then the products in order: the i-th category row closes and
    navigates to that category's slug, the j-th row after them to that
    product's slug, and a click past the last row does nothing.  While the
    list is not on screen no row click does anything. *)
Theorem row_click_target (s : State) :
  (visible s = false -> forall i, step s (ClickRow i) = s)
  /\ (visible s = true ->
      (forall i cat,
          nth_error (categories (results s)) i = Some cat ->
          log (step s (ClickRow i)) =
            log s ++ [OnClose; Navigate (js "/category/" ++ cat_slug cat)])
      /\ (forall j prod,
          nth_error (products (results s)) j = Some prod ->
          log (step s (ClickRow (List.length (categories (results s)) + j))) =
            log s ++ [OnClose; Navigate (js "/product/" ++ prod_slug prod)])
      /\ (forall i,
          List.length (categories (results s)) + List.length (products (results s)) <= i ->
          step s (ClickRow i) = s)).
Proof.
  split; [|split; [|split]].
  - intros H i. simpl. rewrite rows_on_screen, H. now destruct i.
  - intros i cat Hi. simpl. rewrite rows_on_screen, H.
    rewrite nth_error_app1
      by (rewrite length_map; apply nth_error_Some; congruence).
    rewrite nth_error_map, Hi. simpl. now rewrite <- app_assoc.
  - intros j prod Hj. simpl. rewrite rows_on_screen, H.
    rewrite nth_error_app2 by (rewrite length_map; lia).
    rewrite length_map, Nat.add_comm, Nat.add_sub, nth_error_map, Hj. simpl.
    now rewrite <- app_assoc.
  - intros i Hi. simpl. rewrite rows_on_screen, H.
    replace (nth_error _ i) with (@None Row); [reflexivity|].
    symmetry. apply nth_error_None. rewrite length_app, !length_map. exact Hi.
Qed.

(** The one product row comes after the one category row; with an error on
    screen a click does nothing. *)
Lemma row_click_target_witness :
  log (step shoe_results (ClickRow 1)) =
    log shoe_results ++ [OnClose; Navigate (js "/product/" ++ js "sneaker-42")]
  /\ step older_failed (ClickRow 0) = older_failed.
Proof.
  split.
  - assert (Hv : visible shoe_results = true) by (vm_compute; reflexivity).
    apply (proj1 (proj2 (proj2 (row_click_target shoe_results) Hv)) 0 sneaker).
    vm_compute. reflexivity.
  - apply (proj1 (row_click_target older_failed)). vm_compute. reflexivity.
Defined.

(** X7.  A keystroke that leaves something to search for shows the
    spinner alone: Loading is set and the error cleared at once, and the
    ResultSet of the query before is kept, out of sight, until a response
    replaces it. *)
Theorem typing_shows_spinner (s : State) (q : jsstring) :
  timer_tracked s -> open s = true -> jseqb q (query s) = false ->
  truthy (trim q) = true ->
  render (step s (Change q)) =
    Some {| input_value := q; result_area := Some [Spinner] |}
  /\ results (step s (Change q)) = results s
  /\ error (step s (Change q)) = []
  /\ loading (step s (Change q)) = true.
Proof.
  intros Ht Ho Hq Hb.
  simpl. rewrite Ho, change_tracked_eq, Hq, Hb by exact Ht.
  repeat split. unfold render, result_blocks. simpl.
  now rewrite Ho, (trim_truthy q Hb).
Qed.

(** Results for "s" and an error on screen, "shoe" typed. *)
Lemma typing_shows_spinner_witness :
  render (step results_and_error (Change (js "shoe"))) =
    Some {| input_value := js "shoe"; result_area := Some [Spinner] |}
  /\ results (step results_and_error (Change (js "shoe")))
     = results results_and_error
  /\ error (step results_and_error (Change (js "shoe"))) = [].
Proof.
  assert (Ht : timer_tracked results_and_error) by (vm_compute; exact I).
  assert (Ho : open results_and_error = true) by (vm_compute; reflexivity).
  assert (Hq : jseqb (js "shoe") (query results_and_error) = false)
    by (vm_compute; reflexivity).
  destruct (typing_shows_spinner results_and_error (js "shoe") Ht Ho Hq eq_refl)
    as (H1 & H2 & H3 & _).
  split; [exact H1|]. split; [exact H2|exact H3].
Defined.

(** ** While the overlay is closed *)

Lemma fire_all_timing (due : list Timer) (s : State) :
  same_timing s (fold_left (fun s x => fetch_start (timer_query x) s) due s).
Proof.
  revert s; induction due as [|x due IH]; intros s; simpl;
    [apply same_timing_refl|].
  eapply same_timing_trans; [apply fetch_start_timing|apply IH].
Qed.

Lemma tick_open_query (s : State) :
  open (tick s) = open s /\ query (tick s) = query s.
Proof.
  unfold tick.
  destruct (fire_all_timing (filter (is_due (S (now s))) (timers s))
              (with_timers (next_timer s)
                 (filter (fun x => negb (is_due (S (now s)) x)) (timers s))
                 (with_now (S (now s)) s))) as (_ & _ & _ & Hq & _ & Ho & _).
  now rewrite Hq, Ho.
Qed.

(** Closing runs lines 38-43, and nothing writes the query while the
    overlay is closed. *)
Lemma step_closed_clean (s : State) (e : Event) :
  closed_clean s -> closed_clean (step s e).
Proof.
  unfold closed_clean. intros H.
  destruct e as [b|q|key| |i| |id o|id o]; simpl.
  - destruct (set_open_frame b s) as [E|[[_ E]|[_ (nt & ts & d & c & E)]]];
      rewrite E; simpl; auto; try discriminate.
  - destruct (open s) eqn:Ho; [|now rewrite Ho].
    destruct (change_frame q s) as [E|(nt & ts & d & c & E)]; rewrite E.
    + congruence.
    + destruct (truthy (trim q)); simpl; congruence.
  - destruct (open s) eqn:Ho; [|now rewrite Ho].
    destruct (handleEscape_timing key s) as (_ & _ & _ & _ & _ & E & _). congruence.
  - destruct (open s) eqn:Ho; [|now rewrite Ho]. simpl. congruence.
  - destruct (nth_error (rendered_rows s) i) as [r|]; auto.
    destruct (handleResultClick_timing (fst (row_click r)) (snd (row_click r)) s)
      as (_ & _ & _ & E1 & _ & E2 & _). now rewrite E1, E2.
  - destruct (tick_open_query s) as [E1 E2]. now rewrite E1, E2.
  - destruct (category_done_timing id o s) as (_ & _ & _ & E1 & _ & E2 & _).
    now rewrite E1, E2.
  - destruct (product_done_timing id o s) as (_ & _ & _ & E1 & _ & E2 & _).
    now rewrite E1, E2.
Qed.

Lemma reachable_closed_clean (s : State) : reachable s -> closed_clean s.
Proof.
  induction 1 as [o|s e _ IH]; [|now apply step_closed_clean].
  destruct o; intros H; [discriminate|reflexivity].
Qed.

Lemma closed_no_timer (s : State) :
  reachable s -> open s = false -> query s = [] /\ timers s = [].
Proof.
  intros Hr Ho. pose proof (reachable_closed_clean s Hr Ho) as Hq.
  split; [exact Hq|].
  pose proof (reachable_inv s Hr) as Hi. unfold debounce_inv in Hi.
  destruct (timers s) as [|t [|t' l]]; auto; [|contradiction].
  destruct Hi as (_ & _ & _ & Hb & _). rewrite Hq in Hb. discriminate.
Qed.

Lemma closed_mid_typing_reachable : reachable closed_mid_typing.
Proof.
  apply reachable_step, reachable_advance, reachable_step, reachable_mount.
Qed.

Lemma one_in_flight_reachable : reachable one_in_flight.
Proof. apply reachable_advance, reachable_step, reachable_mount. Qed.

Lemma answered_while_closed_reachable : reachable answered_while_closed.
Proof. apply reachable_run, one_in_flight_reachable. Qed.

(** X8.  In every state the component can reach with the overlay closed,
    nothing is rendered, the query is empty, no timer is pending, so that
    no request is ever sent however long the overlay stays closed, and
    input changes and key presses do not reach the component. *)
Theorem closed_overlay_is_idle (s : State) :
  reachable s -> open s = false ->
  render s = None
  /\ query s = []
  /\ timers s = []
  /\ (forall n, log (advance n s) = log s)
  /\ (forall q, step s (Change q) = s)
  /\ (forall key, step s (KeyDown key) = s).
Proof.
  intros Hr Ho. destruct (closed_no_timer s Hr Ho) as [Hq Ht].
  repeat split; auto.
  - unfold render. now rewrite Ho.
  - intros n. rewrite advance_idle by (now rewrite Ht). reflexivity.
  - intros q. simpl. now rewrite Ho.
  - intros key. simpl. now rewrite Ho.
Qed.

(** Closed 100 units after "a" was typed: the search for "a" never
    happens. *)
Lemma closed_overlay_is_idle_witness :
  render closed_mid_typing = None
  /\ timers closed_mid_typing = []
  /\ forall n, log (advance n closed_mid_typing) = log closed_mid_typing.
Proof.
  assert (Ho : open closed_mid_typing = false) by (vm_compute; reflexivity).
  destruct (closed_overlay_is_idle closed_mid_typing closed_mid_typing_reachable Ho)
    as (H1 & _ & H2 & H3 & _).
  split; [exact H1|]. split; [exact H2|exact H3].
Defined.

(** X9.  Opening again focuses the input and shows it empty with no result
    area, and starts no timer.  Opening writes neither the ResultSet, nor
    the error, nor Loading: what a response left there while the overlay
    was closed is still there, out of sight until the next query. *)
Theorem reopen_is_clean (s : State) :
  reachable s -> open s = false ->
  log (step s (SetOpen true)) = log s ++ [Focus]
  /\ render (step s (SetOpen true)) =
       Some {| input_value := []; result_area := None |}
  /\ results (step s (SetOpen true)) = results s
  /\ error (step s (SetOpen true)) = error s
  /\ loading (step s (SetOpen true)) = loading s
  /\ timers (step s (SetOpen true)) = [].
Proof.
  intros Hr Ho.
  destruct (closed_no_timer s Hr Ho) as (Hq & Ht).
  simpl. rewrite set_open_tracked_eq by now apply tracked_no_timer.
  rewrite Ho. simpl. repeat split; auto.
  unfold render. simpl. now rewrite Hq.
Qed.

(** The cycle for "a" was answered while the overlay was closed: its
    category is in the ResultSet when the overlay opens again, and nothing
    of it is shown. *)
Lemma reopen_is_clean_witness :
  render (step answered_while_closed (SetOpen true)) =
    Some {| input_value := []; result_area := None |}
  /\ results (step answered_while_closed (SetOpen true))
     = {| categories := [cat_a]; products := [] |}.
Proof.
  assert (Ho : open answered_while_closed = false) by (vm_compute; reflexivity).
  destruct (reopen_is_clean answered_while_closed
              answered_while_closed_reachable Ho) as (_ & H1 & H2 & _).
  split; [exact H1|]. rewrite H2. vm_compute. reflexivity.
Defined.

(** ** The Escape key *)

(** X10.  Escape only asks the owner to close.  Pressed while a search is
    pending, it calls onClose once and leaves the query and the overlay as
    they are; the timer is not cancelled, so unless the owner closes the
    overlay the search still runs when the 350 units are over.  Any other
    key does nothing. *)
Theorem escape_only_asks (s : State) (q : jsstring) (d p : nat) :
  reachable s -> open s = true -> jseqb q (query s) = false ->
  truthy (trim q) = true -> d < 350 -> 350 <= d + p ->
  log (step (advance d (step s (Change q))) (KeyDown (js "Escape")))
    = log s ++ [OnClose]
  /\ query (step (advance d (step s (Change q))) (KeyDown (js "Escape"))) = q
  /\ open (step (advance d (step s (Change q))) (KeyDown (js "Escape"))) = true
  /\ log (advance p (step (advance d (step s (Change q))) (KeyDown (js "Escape"))))
     = log s ++ [OnClose] ++ cycle_calls q
  /\ (forall s0 key, jseqb key (js "Escape") = false -> step s0 (KeyDown key) = s0).
Proof.
  intros Hr Ho Hq Hb Hd Hp.
  pose proof (inv_tracked s (reachable_inv s Hr)) as Ht.
  destruct (change_just_typed s q Ho Ht Hq) as (H1 & Q1 & L1).
  assert (E1 : step s (Change q) =
               with_cleanup true
                 (with_debounceTimeout (Some (next_timer s))
                    (with_timers (S (next_timer s))
                       [{| timer_id := next_timer s; timer_due := now s + 350;
                           timer_query := q |}]
                       (setError [] (setLoading true (setQuery q s)))))).
  { simpl. rewrite Ho, (change_tracked_eq q s Ht), Hq, Hb. reflexivity. }
  rewrite (just_typed_wait _ d H1 Hd).
  remember (step s (Change q)) as s1 eqn:Es1.
  assert (E2 : step (with_now (now s1 + d) s1) (KeyDown (js "Escape"))
               = call OnClose (with_now (now s1 + d) s1)).
  { cbn [step]. unfold handleEscape. rewrite jseqb_refl.
    cbn [open with_now]. destruct H1 as (-> & _). reflexivity. }
  rewrite E2.
  split; [simpl; now rewrite L1|]. split; [exact Q1|].
  split; [apply H1|]. split.
  - rewrite (advance_fire p _
               {| timer_id := next_timer s; timer_due := now s + 350; timer_query := q |})
      by (rewrite E1; simpl; auto; lia).
    cbn [log with_now]. rewrite fetch_start_log. cbn [timer_query].
    unfold cycle_calls. rewrite Hb. simpl. rewrite L1.
    now rewrite <- app_assoc.
  - intros s0 key Hk. simpl. unfold handleEscape. rewrite Hk. now destruct (open s0).
Qed.

(** Escape 100 units after "a" was typed, the overlay left open: the
    lookups for "a" go out 250 units later. *)
Lemma escape_only_asks_witness :
  log (advance 250 (step (advance 100 (step (mount true) (Change (js "a"))))
                      (KeyDown (js "Escape"))))
  = [Focus] ++ [OnClose] ++ lookups (js "a").
Proof.
  assert (H1 : 100 < 350) by lia.
  assert (H2 : 350 <= 100 + 250) by lia.
  exact (proj1 (proj2 (proj2 (proj2
           (escape_only_asks (mount true) (js "a") 100 250
              (reachable_mount true) eq_refl eq_refl eq_refl H1 H2))))).
Defined.

(** ** Requests in flight are never cancelled *)

Lemma find_app_some {A : Type} (f : A -> bool) (l l' : list A) (x : A) :
  find f l = Some x -> find f (l ++ l') = Some x.
Proof.
  induction l as [|y l IH]; simpl; [discriminate|].
  destruct (f y); auto.
Qed.

Lemma fetch_start_inflight (q : jsstring) (s : State) :
  exists l, inflight (fetch_start q s) = inflight s ++ l.
Proof.
  unfold fetch_start. destruct (encodeURIComponent q); simpl.
  - eexists. reflexivity.
  - exists []. now rewrite app_nil_r.
Qed.

Lemma fire_all_inflight (due : list Timer) (s : State) :
  exists l,
    inflight (fold_left (fun s x => fetch_start (timer_query x) s) due s)
    = inflight s ++ l.
Proof.
  revert s; induction due as [|x due IH]; intros s; simpl.
  - exists []. now rewrite app_nil_r.
  - destruct (IH (fetch_start (timer_query x) s)) as (l & ->).
    destruct (fetch_start_inflight (timer_query x) s) as (l' & ->).
    exists (l' ++ l). now rewrite app_assoc.
Qed.

Lemma step_keeps_inflight (s : State) (e : Event) :
  is_response e = false -> exists l, inflight (step s e) = inflight s ++ l.
Proof.
  intros He. destruct e as [b|q|key| |i| |id o|id o]; try discriminate; simpl.
  - exists []. rewrite app_nil_r.
    destruct (set_open_frame b s) as [->|[[_ ->]|[_ (nt & ts & d & c & ->)]]];
      reflexivity.
  - exists []. rewrite app_nil_r. destruct (open s); auto.
    destruct (change_frame q s) as [->|(nt & ts & d & c & ->)]; auto.
    now destruct (truthy (trim q)).
  - exists []. rewrite app_nil_r. destruct (open s); auto.
    unfold handleEscape. now destruct (jseqb key (js "Escape")).
  - exists []. rewrite app_nil_r. now destruct (open s).
  - exists []. rewrite app_nil_r.
    destruct (nth_error (rendered_rows s) i) as [r|]; auto.
    now destruct (fst (row_click r)).
  - unfold tick.
    apply (fire_all_inflight (filter (is_due (S (now s))) (timers s))
             (with_timers (next_timer s)
                (filter (fun x => negb (is_due (S (now s)) x)) (timers s))
                (with_now (S (now s)) s))).
Qed.

Lemma step_keeps_find (s : State) (e : Event) (id : nat) (c : Cycle) :
  is_response e = false ->
  find_cycle id s = Some c -> find_cycle id (step s e) = Some c.
Proof.
  intros He Hf. destruct (step_keeps_inflight s e He) as (l & Hl).
  unfold find_cycle in *. rewrite Hl. now apply find_app_some.
Qed.




(** ** An older cycle ends while a newer search is pending *)

Lemma category_done_log (id : nat) (o : Outcome CategoryResponse) (s : State) :
  log (category_done id o s) = log s.
Proof.
  unfold category_done. destruct (find_cycle id s) as [c|]; auto.
  destruct (cat_res c); auto. destruct o as [v|]; auto.
  destruct (prod_res c) as [p|]; auto. rewrite fetch_fulfilled_eq.
  now destruct (cycle_result v p).
Qed.

Lemma product_done_log (id : nat) (o : Outcome ProductResponse) (s : State) :
  log (product_done id o s) = log s.
Proof.
  unfold product_done. destruct (find_cycle id s) as [c|]; auto.
  destruct (prod_res c); auto. destruct o as [v|]; auto.
  destruct (cat_res c) as [p|]; auto. rewrite fetch_fulfilled_eq.
  now destruct (cycle_result p v).
Qed.

(** X12.  The `finally` of an older cycle clears the Loading flag a newer
    keystroke has set.  With a cycle in flight, a keystroke that leaves
    something to search for sets Loading and schedules its timer; when an
    answer then ends the older cycle, Loading is false although the timer
    of the new query is still pending and nothing has been sent for it. *)
Theorem stale_cycle_clears_loading (s : State) (q : jsstring) (id : nat)
    (c : Cycle) (e : Event) :
  reachable s -> open s = true -> jseqb q (query s) = false ->
  truthy (trim q) = true ->
  find_cycle id s = Some c -> response_for id e = true ->
  find_cycle id (step (step s (Change q)) e) = None ->
  loading (step s (Change q)) = true
  /\ loading (step (step s (Change q)) e) = false
  /\ timers (step (step s (Change q)) e) =
       [{| timer_id := next_timer s; timer_due := now s + 350; timer_query := q |}]
  /\ query (step (step s (Change q)) e) = q
  /\ log (step (step s (Change q)) e) = log s.
Proof.
  intros Hr Ho Hq Hb Hf He Hgone.
  pose proof (inv_tracked s (reachable_inv s Hr)) as Ht.
  assert (E1 : step s (Change q) =
               with_cleanup true
                 (with_debounceTimeout (Some (next_timer s))
                    (with_timers (S (next_timer s))
                       [{| timer_id := next_timer s; timer_due := now s + 350;
                           timer_query := q |}]
                       (setError [] (setLoading true (setQuery q s)))))).
  { simpl. rewrite Ho, (change_tracked_eq q s Ht), Hq, Hb. reflexivity. }
  assert (Hf1 : find_cycle id (step s (Change q)) = Some c).
  { now apply step_keeps_find. }
  split; [now rewrite E1|]. split.
  { now apply (settled_loading (step s (Change q)) id c e). }
  assert (T : same_timing (step s (Change q)) (step (step s (Change q)) e)
              /\ log (step (step s (Change q)) e) = log (step s (Change q))).
  { destruct e as [| | | | | |i o|i o]; try discriminate.
    - split; [apply category_done_timing|apply category_done_log].
    - split; [apply product_done_timing|apply product_done_log]. }
  destruct T as ((T1 & _ & _ & T2 & _) & T3).
  rewrite T1, T2, T3, E1. simpl. auto.
Qed.

(** The lookup for "a" fails right after "ab" was typed: the spinner is
    gone while the search for "ab" has not started. *)
Lemma stale_cycle_clears_loading_witness :
  loading (step (step one_in_flight (Change (js "ab"))) (CategoryDone 0 Rejected))
    = false
  /\ timers (step (step one_in_flight (Change (js "ab"))) (CategoryDone 0 Rejected)) =
       [{| timer_id := 2; timer_due := 700; timer_query := js "ab" |}].
Proof.
  destruct (stale_cycle_clears_loading one_in_flight (js "ab") 0
              {| cycle_id := 0; cat_res := None; prod_res := None |}
              (CategoryDone 0 Rejected) one_in_flight_reachable)
    as (_ & H1 & H2 & _); try (vm_compute; reflexivity).
  split; [exact H1|]. rewrite H2. vm_compute. reflexivity.
Defined.

(** ** A success leaves the error *)

(** X13.  A cycle that succeeds writes the ResultSet and does not touch
    the error: only the search effect clears it (line 53).  So when an
    older cycle has failed and a newer one then succeeds, the error text
    stays on screen and the new results are not shown. *)
Theorem success_keeps_error (s : State) (e : Event) (r : Results) :
  completes s e = Some r ->
  error (step s e) = error s
  /\ query (step s e) = query s
  /\ (open s = true -> truthy (query s) = true -> truthy (error s) = true ->
      render (step s e) =
        Some {| input_value := query s;
                result_area := Some [ErrorText (error s)] |}).
Proof.
  intros Hc.
  assert (E : error (step s e) = error s /\ query (step s e) = query s
              /\ open (step s e) = open s /\ loading (step s e) = false).
  { destruct (completes_step s e r Hc) as [_ Hl].
    destruct e as [| | | | | |id [v|]|id [v|]]; try discriminate; simpl in *.
    - unfold category_done in *.
      destruct (find_cycle id s) as [[i [c|] [p|]]|]; try discriminate.
      simpl in *. rewrite fetch_fulfilled_eq in *. rewrite Hc in *. auto.
    - unfold product_done in *.
      destruct (find_cycle id s) as [[i [c|] [p|]]|]; try discriminate.
      simpl in *. rewrite fetch_fulfilled_eq in *. rewrite Hc in *. auto. }
  destruct E as (E1 & E2 & E3 & E4). repeat split; auto.
  intros Ho Hq He. unfold render, result_blocks.
  now rewrite E1, E2, E3, E4, Ho, Hq, He.
Qed.

(** The cycle for "a" has failed; the cycle for "ab" then succeeds. *)
Lemma success_keeps_error_witness :
  results (step older_failed (ProductDone 1 (Fulfilled (ok_products []))))
    = {| categories := [cat_ab]; products := [] |}
  /\ render (step older_failed (ProductDone 1 (Fulfilled (ok_products [])))) =
       Some {| input_value := js "ab";
               result_area := Some [ErrorText (js "Search failed.")] |}.
Proof.
  assert (Hc : completes older_failed (ProductDone 1 (Fulfilled (ok_products [])))
               = Some {| categories := [cat_ab]; products := [] |})
    by (vm_compute; reflexivity).
  split.
  - exact (proj1 (completes_step _ _ _ Hc)).
  - destruct (success_keeps_error _ _ _ Hc) as (_ & _ & H).
    rewrite H by (vm_compute; reflexivity). vm_compute. reflexivity.
Defined.

(** ** What a fulfilled cycle leaves *)

Lemma fulfilled_cycle_state (s : State) (id : nat) (catRes : CategoryResponse)
    (prodRes : ProductResponse) :
  find_cycle id s = Some {| cycle_id := id; cat_res := None; prod_res := None |} ->
  run s [CategoryDone id (Fulfilled catRes); ProductDone id (Fulfilled prodRes)]
  = fetch_fulfilled catRes prodRes
      (remove_cycle id
         (update_cycle {| cycle_id := id; cat_res := Some catRes; prod_res := None |} s)).
Proof.
  intros H. unfold run. cbn [fold_left step].
  unfold category_done at 1. rewrite H. cbn [cat_res prod_res].
  unfold product_done.
  rewrite (find_cycle_update id s _
             {| cycle_id := id; cat_res := Some catRes; prod_res := None |}
             H eq_refl).
  reflexivity.
Qed.

(** X14.  When both lookups of a cycle are fulfilled, Loading is cleared
    and the cycle is over.  If both responses carry a body, the ResultSet
    becomes the body's category list and product list, each replaced by
    the empty list where the field is missing (a missing `data` inside the
    body is no error), and the error is left alone.  If either response
    carries no body, reading it throws: the error becomes "Search failed."
    and the ResultSet is left alone. *)
Theorem fulfilled_cycle (s : State) (id : nat) (catRes : CategoryResponse)
    (prodRes : ProductResponse) :
  find_cycle id s = Some {| cycle_id := id; cat_res := None; prod_res := None |} ->
  loading (run s [CategoryDone id (Fulfilled catRes);
                  ProductDone id (Fulfilled prodRes)]) = false
  /\ find_cycle id (run s [CategoryDone id (Fulfilled catRes);
                          ProductDone id (Fulfilled prodRes)]) = None
  /\ match data catRes, data prodRes with
     | Some cb, Some pb =>
         results (run s [CategoryDone id (Fulfilled catRes);
                         ProductDone id (Fulfilled prodRes)])
         = {| categories := body_categories cb; products := body_products pb |}
         /\ error (run s [CategoryDone id (Fulfilled catRes);
                         ProductDone id (Fulfilled prodRes)]) = error s
     | _, _ =>
         results (run s [CategoryDone id (Fulfilled catRes);
                         ProductDone id (Fulfilled prodRes)]) = results s
         /\ error (run s [CategoryDone id (Fulfilled catRes);
                         ProductDone id (Fulfilled prodRes)]) = search_failed
     end.
Proof.
  intros H. rewrite (fulfilled_cycle_state s id catRes prodRes H).
  unfold fetch_fulfilled, read_categories, read_products, body_categories,
    body_products.
  split; [|split].
  - destruct (data catRes), (data prodRes); reflexivity.
  - assert (F : forall l, find (fun c => cycle_id c =? id)
                            (filter (fun c => negb (cycle_id c =? id)) l) = None).
    { induction l as [|x l IH]; simpl; auto.
      destruct (cycle_id x =? id) eqn:E; simpl; auto. now rewrite E. }
    destruct (data catRes), (data prodRes); unfold find_cycle; simpl; apply F.
  - destruct (data catRes), (data prodRes); simpl; auto.
Qed.

(** Bodies without `data`: an empty ResultSet.  A category response
    without a body: "Search failed.". *)
Lemma fulfilled_cycle_witness :
  (results (run one_in_flight
              [CategoryDone 0 (Fulfilled {| data := Some {| cb_data := None |} |});
               ProductDone 0 (Fulfilled {| data := Some {| pb_data := None |} |})])
   = no_results)
  /\ (error (run one_in_flight
              [CategoryDone 0 (Fulfilled {| data := None |});
               ProductDone 0 (Fulfilled (ok_products [sneaker]))])
      = js "Search failed.").
Proof.
  split.
  - exact (proj1 (proj2 (proj2 (fulfilled_cycle one_in_flight 0
             {| data := Some {| cb_data := None |} |}
             {| data := Some {| pb_data := None |} |} eq_refl)))).
  - exact (proj2 (proj2 (proj2 (fulfilled_cycle one_in_flight 0
             {| data := None |} (ok_products [sneaker]) eq_refl)))).
Defined.

(** ** From keystroke to results *)

Lemma fetch_start_bounded (q : jsstring) (s : State) :
  ids_bounded s -> ids_bounded (fetch_start q s).
Proof.
  unfold ids_bounded, fetch_start. intros H.
  destruct (encodeURIComponent q); simpl; auto.
  apply Forall_app. split.
  - eapply Forall_impl; [|exact H]. simpl. intros c Hc. lia.
  - constructor; [simpl; lia|constructor].
Qed.

Lemma fire_all_bounded (due : list Timer) (s : State) :
  ids_bounded s ->
  ids_bounded (fold_left (fun s x => fetch_start (timer_query x) s) due s).
Proof.
  revert s; induction due as [|x due IH]; intros s H; simpl; auto.
  apply IH. now apply fetch_start_bounded.
Qed.

Lemma fetch_fulfilled_bounded (c : CategoryResponse) (p : ProductResponse)
    (s : State) :
  ids_bounded s -> ids_bounded (fetch_fulfilled c p s).
Proof.
  rewrite fetch_fulfilled_eq. now destruct (cycle_result c p).
Qed.

Lemma remove_cycle_bounded (id : nat) (s : State) :
  ids_bounded s -> ids_bounded (remove_cycle id s).
Proof.
  unfold ids_bounded, remove_cycle. simpl. intros H.
  rewrite Forall_forall in *. intros c Hc. apply filter_In in Hc as [Hc _]. auto.
Qed.

Lemma update_cycle_bounded (c : Cycle) (s : State) :
  ids_bounded s -> cycle_id c < next_cycle s -> ids_bounded (update_cycle c s).
Proof.
  unfold ids_bounded, update_cycle. simpl. intros H Hc.
  rewrite Forall_forall in *. intros x Hx. apply in_map_iff in Hx as (y & <- & Hy).
  destruct (cycle_id y =? cycle_id c); auto.
Qed.

Lemma find_cycle_bounded (id : nat) (s : State) (c : Cycle) :
  ids_bounded s -> find_cycle id s = Some c -> id < next_cycle s.
Proof.
  unfold ids_bounded, find_cycle. intros H Hf.
  apply find_some in Hf as [Hin Hid]. apply Nat.eqb_eq in Hid. subst id.
  rewrite Forall_forall in H. auto.
Qed.

Lemma step_bounded (s : State) (e : Event) : ids_bounded s -> ids_bounded (step s e).
Proof.
  intros H. destruct e as [b|q|key| |i| |id o|id o]; simpl.
  - destruct (set_open_frame b s) as [->|[[_ ->]|[_ (nt & ts & d & c & ->)]]]; auto.
  - destruct (open s); auto.
    destruct (change_frame q s) as [->|(nt & ts & d & c & ->)]; auto.
    now destruct (truthy (trim q)).
  - destruct (open s); auto. unfold handleEscape.
    now destruct (jseqb key (js "Escape")).
  - now destruct (open s).
  - destruct (nth_error (rendered_rows s) i) as [r|]; auto.
    now destruct (fst (row_click r)).
  - unfold tick. now apply fire_all_bounded.
  - unfold category_done. destruct (find_cycle id s) as [c|] eqn:E; auto.
    destruct (cat_res c); auto. destruct o as [v|].
    + destruct (prod_res c).
      * now apply fetch_fulfilled_bounded, remove_cycle_bounded.
      * apply update_cycle_bounded; auto. simpl.
        now apply (find_cycle_bounded id s c).
    + now apply remove_cycle_bounded.
  - unfold product_done. destruct (find_cycle id s) as [c|] eqn:E; auto.
    destruct (prod_res c); auto. destruct o as [v|].
    + destruct (cat_res c).
      * now apply fetch_fulfilled_bounded, remove_cycle_bounded.
      * apply update_cycle_bounded; auto. simpl.
        now apply (find_cycle_bounded id s c).
    + now apply remove_cycle_bounded.
Qed.

Lemma reachable_bounded (s : State) : reachable s -> ids_bounded s.
Proof.
  induction 1 as [o|s e _ IH]; [|now apply step_bounded].
  destruct o; constructor.
Qed.

Lemma find_fresh (l : list Cycle) (n : nat) (c : Cycle) :
  Forall (fun x => cycle_id x < n) l -> cycle_id c = n ->
  find (fun x => cycle_id x =? n) (l ++ [c]) = Some c.
Proof.
  intros H Hc. induction H as [|x l Hx _ IH]; simpl.
  - now rewrite Hc, Nat.eqb_refl.
  - destruct (cycle_id x =? n) eqn:E; [apply Nat.eqb_eq in E; lia|exact IH].
Qed.

(** X15.  From keystroke to results.  From any reachable state with the
    overlay open, a keystroke that changes the value to one with more than
    white space that can be URL-encoded, a pause of 350 units or more, and
    the two lookups of the cycle that pause started both fulfilled: exactly
    the two lookups were sent, the ResultSet holds exactly what the
    responses carried, Loading and the error are clear, and the rows on
    screen are one row per category and then one per product, in the order
    of the responses. *)
Theorem search_round_trip (s : State) (q e : jsstring) (p : nat)
    (cs : list Category) (ps : list Product) :
  reachable s -> open s = true -> jseqb q (query s) = false ->
  truthy (trim q) = true -> encodeURIComponent q = Some e -> 350 <= p ->
  find_cycle (next_cycle s) (advance p (step s (Change q)))
    = Some {| cycle_id := next_cycle s; cat_res := None; prod_res := None |}
  /\ log (run (advance p (step s (Change q)))
            [CategoryDone (next_cycle s) (Fulfilled (ok_categories cs));
             ProductDone (next_cycle s) (Fulfilled (ok_products ps))])
     = log s ++ lookups e
  /\ results (run (advance p (step s (Change q)))
            [CategoryDone (next_cycle s) (Fulfilled (ok_categories cs));
             ProductDone (next_cycle s) (Fulfilled (ok_products ps))])
     = {| categories := cs; products := ps |}
  /\ loading (run (advance p (step s (Change q)))
            [CategoryDone (next_cycle s) (Fulfilled (ok_categories cs));
             ProductDone (next_cycle s) (Fulfilled (ok_products ps))]) = false
  /\ error (run (advance p (step s (Change q)))
            [CategoryDone (next_cycle s) (Fulfilled (ok_categories cs));
             ProductDone (next_cycle s) (Fulfilled (ok_products ps))]) = []
  /\ rendered_rows (run (advance p (step s (Change q)))
            [CategoryDone (next_cycle s) (Fulfilled (ok_categories cs));
             ProductDone (next_cycle s) (Fulfilled (ok_products ps))])
     = map category_row cs ++ map product_row ps.
Proof.
  intros Hr Ho Hq Hb He Hp.
  pose proof (inv_tracked s (reachable_inv s Hr)) as Ht.
  pose proof (reachable_bounded s Hr) as Hbd.
  assert (E1 : step s (Change q) =
               with_cleanup true
                 (with_debounceTimeout (Some (next_timer s))
                    (with_timers (S (next_timer s))
                       [{| timer_id := next_timer s; timer_due := now s + 350;
                           timer_query := q |}]
                       (setError [] (setLoading true (setQuery q s)))))).
  { simpl. rewrite Ho, (change_tracked_eq q s Ht), Hq, Hb. reflexivity. }
  assert (E2 : advance p (step s (Change q)) =
               with_now (now s + p)
                 (fetch_start q (with_timers (S (next_timer s)) [] (step s (Change q))))).
  { rewrite (advance_fire p (step s (Change q))
               {| timer_id := next_timer s; timer_due := now s + 350; timer_query := q |})
      by (rewrite E1; simpl; auto; lia).
    rewrite E1. reflexivity. }
  assert (F : find_cycle (next_cycle s) (advance p (step s (Change q)))
              = Some {| cycle_id := next_cycle s; cat_res := None; prod_res := None |}).
  { rewrite E2, E1. unfold fetch_start. rewrite He. unfold find_cycle. simpl.
    now apply find_fresh. }
  split; [exact F|].
  rewrite (fulfilled_cycle_state _ _ _ _ F).
  rewrite fetch_fulfilled_eq. cbn [cycle_result read_categories read_products
    ok_categories ok_products data cb_data pb_data pd_products].
  rewrite rows_on_screen. unfold visible.
  rewrite E2, E1. unfold fetch_start. rewrite He. simpl.
  rewrite Ho, (trim_truthy q Hb). simpl.
  repeat split; auto. now rewrite <- app_assoc.
Qed.

(** "s" typed into the empty input, one category and one product
    found. *)
Lemma search_round_trip_witness :
  results (run (advance 350 (step (mount true) (Change (js "s"))))
             [CategoryDone 0 (Fulfilled (ok_categories [shoes]));
              ProductDone 0 (Fulfilled (ok_products [sneaker]))])
  = {| categories := [shoes]; products := [sneaker] |}
  /\ rendered_rows (run (advance 350 (step (mount true) (Change (js "s"))))
             [CategoryDone 0 (Fulfilled (ok_categories [shoes]));
              ProductDone 0 (Fulfilled (ok_products [sneaker]))])
     = [category_row shoes; product_row sneaker].
Proof.
  destruct (search_round_trip (mount true) (js "s") (js "s") 350 [shoes] [sneaker]
              (reachable_mount true) eq_refl eq_refl eq_refl eq_refl (le_n 350))
    as (_ & _ & H1 & _ & _ & H2).
  split; [exact H1|exact H2].
Defined.
